(** * A fixed-size worker thread pool: threadPool.c

    The pool of threadPool.c is a monitor: one mutex (mutexEmptyQ) and one
    condition variable (cv) guard a queue of task nodes and two flags.
    Worker threads run tpRoutine; client threads call tpInsertTask and
    tpDestroy.  The development embeds every statement of the four
    functions as one transition of an interleaving machine: a program
    counter per thread, the shared pool record, and a log of the
    operations performed.  The scheduler and the C library (malloc, the
    return codes of the pthread calls, the choice of the waiter that a
    signal unblocks, spurious wake-ups) are the inputs of the machine.

    Conventions.
    - A pthread call whose error return the source only logs
      (tpRoutine, tpDestroy) is taken at its contract: lock acquires the
      free mutex, unlock releases it.  Where the source branches on the
      return code (tpInsertTask) the code is an input.
    - Behaviour that C or POSIX leaves undefined is the outcome [Undef]:
      dereferencing a null or released pool, unlocking a mutex the thread
      does not hold, joining a thread twice, dequeuing from an empty queue,
      destroying a locked mutex.
    - free of a task node and the call of its function are logged, never
      refused: that a node is freed or run twice is a property of the log. *)

From Stdlib Require Import ZArith Lia List.
From stdpp Require Import base tactics option list.

Local Open Scope Z_scope.
Local Open Scope nat_scope.

(** ** Values *)

(** A non-null function pointer, an opaque argument, the address of a
    task node obtained from malloc. *)
Definition fn := nat.
Definition arg := nat.
Definition node_ptr := nat.

(** struct task_node, as tnCreate fills it. *)
Record task_node := mk_task_node { computeFunc : fn; parameters : arg }.

(** A pointer to a ThreadPool: null, or the pool built by tpCreate. *)
Inductive pool_ptr := NULL | POOL.

Inductive tid := Worker (i : nat) | Client (c : nat).

Definition tid_eqb (a b : tid) : bool :=
  match a, b with
  | Worker i, Worker j => i =? j
  | Client c, Client d => c =? d
  | _, _ => false
  end.

(** Modelled from the spec: the header threadPool.h is not part of the
    sources; the fields of struct thread_pool are those threadPool.c uses.
    The mutex is its owner, the condition variable is the set of workers
    blocked in pthread_cond_wait (their program counter), threadArray is
    the list of worker threads of the machine. *)
Record thread_pool := mk_pool {
  taskQueue : list node_ptr;
  isShuttingDown : bool;
  shouldWaitForTasks : bool;
  numOfThreads : Z;
  mutexEmptyQ : option tid
}.

(** Modelled from the spec: the result codes of tpInsertTask, from its
    documentation (-1 if failed, 0 if worked). *)
Definition TASK_INSERT_FAILURE : Z := (-1)%Z.
Definition TASK_INSERT_SUCCESS : Z := 0%Z.

(** ** The queue collaborator *)

(** Modelled from the spec: the queue of osqueue.h is not part of the
    sources.  It is a first-in first-out sequence: enqueue at the tail,
    dequeue at the head, dequeue undefined on the empty queue. *)
Definition osIsQueueEmpty (q : list node_ptr) : bool :=
  match q with [] => true | _ :: _ => false end.

Definition osEnqueue (q : list node_ptr) (t : node_ptr) : list node_ptr := q ++ [t].

Definition osDequeue (q : list node_ptr) : option (node_ptr * list node_ptr) :=
  match q with [] => None | t :: q' => Some (t, q') end.

(** ** Program counters *)

(** tpRoutine; the constructor names the statement about to run. *)
Inductive wpc :=
| WEntry (p : pool_ptr)   (* line 14: pool == NULL *)
| WLock                   (* line 24: pthread_mutex_lock *)
| WGuard                  (* line 29: the condition of the wait loop *)
| WWait                   (* line 30: blocked in pthread_cond_wait *)
| WWoken                  (* line 30: unblocked, taking the mutex again *)
| WPolicy                 (* lines 41-51: the shutdown policy *)
| WDequeue                (* line 57: osDequeue *)
| WUnlock (t : node_ptr)  (* line 58: pthread_mutex_unlock *)
| WCall (t : node_ptr)    (* line 61: the call of computeFunc *)
| WFree (t : node_ptr)    (* line 62: free(task) *)
| WExit                   (* lines 67-70: unlock and pthread_exit *)
| WDone                   (* the thread has terminated *)
| WJoined.                (* and has been joined *)

(** The value a terminated worker leaves: tpRoutine returns NULL at line
    15 and ends in pthread_exit(NULL) at line 70. *)
Definition exit_value (pc : wpc) : option pool_ptr :=
  match pc with WDone | WJoined => Some NULL | _ => None end.

(** The return statements of tpInsertTask. *)
Inductive insert_return :=
| RetBadArgs      (* line 192 *)
| RetNoTask       (* line 199 *)
| RetLockErr      (* line 205 *)
| RetSignalErr    (* line 214 *)
| RetUnlockErr    (* line 220 *)
| RetInserted.    (* line 223 *)

Definition ret_value (r : insert_return) : Z :=
  match r with
  | RetInserted => TASK_INSERT_SUCCESS
  | _ => TASK_INSERT_FAILURE
  end.

(** tpInsertTask (I), tpDestroy (D) and tpFreeThreadPool (F). *)
Inductive cpc :=
| CIdle
| ICheck (h : pool_ptr) (f : option fn) (p : arg)  (* line 190 *)
| ICreate (f : fn) (p : arg)                       (* line 197: tnCreate *)
| ILock (t : node_ptr)                             (* line 203 *)
| IEnqueue (t : node_ptr)                          (* line 209 *)
| ISignal                                          (* line 212 *)
| IUnlock                                          (* line 218 *)
| DCheck (h : pool_ptr) (d : Z)                    (* line 144 *)
| DLock (d : Z)                                    (* line 148 *)
| DSetDrain (d : Z)                                (* line 153 *)
| DSetShut                                         (* line 154 *)
| DBroadcast                                       (* line 157 *)
| DUnlock                                          (* line 161 *)
| DJoin (i : nat)                                  (* lines 166-171 *)
| FCheck                                           (* line 258 *)
| FDequeue                                         (* line 259 *)
| FQueue                                           (* line 261 *)
| FRelease.                                        (* lines 264-280 *)

(** ** The log *)

Inductive api_call :=
| Insert (h : pool_ptr) (f : option fn) (p : arg)
| Destroy (h : pool_ptr) (d : Z).

Inductive event :=
| EvCall (c : nat) (op : api_call)
| EvInsertRet (c : nat) (r : insert_return)
| EvDestroyRet (c : nat)
| EvEnqueue (c : nat) (t : node_ptr)
| EvDequeue (who : tid) (t : node_ptr)
| EvExec (w : nat) (t : node_ptr) (f : fn) (p : arg)
| EvFree (who : tid) (t : node_ptr)
| EvSetDrain (c : nat) (b : bool)
| EvSetShut (c : nat)
| EvJoin (c : nat) (w : nat).

(** ** The machine *)

(** What is left of the pool: everything, everything but the queue
    (after osDestroyQueue), nothing (after free(threadPool)). *)
Inductive lifetime := Live | QueueGone | Released.

Record system := mk_system {
  pool : thread_pool;
  life : lifetime;
  workers : list wpc;
  clients : list cpc;
  nodes : list task_node;
  trace : list event
}.

Inductive outcome := Next (s : system) | Stuck | Undef.

Definition set_queue (q : list node_ptr) (s : system) : system :=
  mk_system
    (mk_pool q (isShuttingDown (pool s)) (shouldWaitForTasks (pool s))
       (numOfThreads (pool s)) (mutexEmptyQ (pool s)))
    (life s) (workers s) (clients s) (nodes s) (trace s).

Definition set_owner (o : option tid) (s : system) : system :=
  mk_system
    (mk_pool (taskQueue (pool s)) (isShuttingDown (pool s))
       (shouldWaitForTasks (pool s)) (numOfThreads (pool s)) o)
    (life s) (workers s) (clients s) (nodes s) (trace s).

Definition set_shut (b : bool) (s : system) : system :=
  mk_system
    (mk_pool (taskQueue (pool s)) b (shouldWaitForTasks (pool s))
       (numOfThreads (pool s)) (mutexEmptyQ (pool s)))
    (life s) (workers s) (clients s) (nodes s) (trace s).

Definition set_drain (b : bool) (s : system) : system :=
  mk_system
    (mk_pool (taskQueue (pool s)) (isShuttingDown (pool s)) b
       (numOfThreads (pool s)) (mutexEmptyQ (pool s)))
    (life s) (workers s) (clients s) (nodes s) (trace s).

Definition set_life (l : lifetime) (s : system) : system :=
  mk_system (pool s) l (workers s) (clients s) (nodes s) (trace s).

Definition set_worker (w : nat) (pc : wpc) (s : system) : system :=
  mk_system (pool s) (life s) (<[w := pc]> (workers s)) (clients s) (nodes s) (trace s).

Definition set_workers (ws : list wpc) (s : system) : system :=
  mk_system (pool s) (life s) ws (clients s) (nodes s) (trace s).

Definition set_client (c : nat) (pc : cpc) (s : system) : system :=
  mk_system (pool s) (life s) (workers s) (<[c := pc]> (clients s)) (nodes s) (trace s).

Definition alloc_node (nd : task_node) (s : system) : system :=
  mk_system (pool s) (life s) (workers s) (clients s) (nodes s ++ [nd]) (trace s).

Definition emit (evs : list event) (s : system) : system :=
  mk_system (pool s) (life s) (workers s) (clients s) (nodes s) (trace s ++ evs).

Definition released (s : system) : bool :=
  match life s with Released => true | _ => false end.

Definition queue_live (s : system) : bool :=
  match life s with Live => true | _ => false end.

Definition owned_by (t : tid) (s : system) : bool :=
  match mutexEmptyQ (pool s) with
  | Some o => tid_eqb o t
  | None => false
  end.

(** pthread_mutex_lock by thread [t]; [k] moves [t] to its next statement. *)
Definition lock (t : tid) (k : system → system) (s : system) : outcome :=
  if released s then Undef
  else match mutexEmptyQ (pool s) with
       | None => Next (k (set_owner (Some t) s))
       | Some _ => Stuck
       end.

(** pthread_mutex_unlock by thread [t]. *)
Definition unlock (t : tid) (k : system → system) (s : system) : outcome :=
  if released s then Undef
  else if owned_by t s then Next (k (set_owner None s))
  else Undef.

(** *** tpRoutine *)

Inductive decision := Terminate | TakeTask.

(** Lines 41-51. *)
Definition shutdown_policy (shutting drain empty : bool) : decision :=
  if shutting && drain then
    (if empty then Terminate else TakeTask)
  else if shutting && negb drain then Terminate
  else TakeTask.

(** Line 29. *)
Definition wait_guard (empty shutting : bool) : bool := empty && negb shutting.

Definition step_worker (w : nat) (s : system) : outcome :=
  match workers s !! w with
  | None => Stuck
  | Some pc =>
    match pc with
    | WEntry NULL => Next (set_worker w WDone s)
    | WEntry POOL => Next (set_worker w WLock s)
    | WLock => lock (Worker w) (set_worker w WGuard) s
    | WGuard =>
        if negb (queue_live s) then Undef
        else if wait_guard (osIsQueueEmpty (taskQueue (pool s))) (isShuttingDown (pool s))
        then unlock (Worker w) (set_worker w WWait) s
        else Next (set_worker w WPolicy s)
    | WWait => Stuck
    | WWoken => lock (Worker w) (set_worker w WGuard) s
    | WPolicy =>
        if negb (queue_live s) then Undef
        else match shutdown_policy (isShuttingDown (pool s)) (shouldWaitForTasks (pool s))
                     (osIsQueueEmpty (taskQueue (pool s))) with
             | Terminate => Next (set_worker w WExit s)
             | TakeTask => Next (set_worker w WDequeue s)
             end
    | WDequeue =>
        if negb (queue_live s) then Undef
        else match osDequeue (taskQueue (pool s)) with
             | None => Undef
             | Some (t, q) =>
                 Next (emit [EvDequeue (Worker w) t] (set_worker w (WUnlock t) (set_queue q s)))
             end
    | WUnlock t => unlock (Worker w) (set_worker w (WCall t)) s
    | WCall t =>
        match nodes s !! t with
        | None => Undef
        | Some nd =>
            Next (emit [EvExec w t (computeFunc nd) (parameters nd)] (set_worker w (WFree t) s))
        end
    | WFree t => Next (emit [EvFree (Worker w) t] (set_worker w WLock s))
    | WExit => unlock (Worker w) (set_worker w WDone) s
    | WDone => Stuck
    | WJoined => Stuck
    end
  end.

(** *** tpInsertTask, tpDestroy, tpFreeThreadPool *)

Definition ret_insert (c : nat) (r : insert_return) (s : system) : system :=
  emit [EvInsertRet c r] (set_client c CIdle s).

Definition ret_destroy (c : nat) (s : system) : system :=
  emit [EvDestroyRet c] (set_client c CIdle s).

Definition is_waiting (pc : wpc) : bool :=
  match pc with WWait => true | _ => false end.

(** pthread_cond_broadcast unblocks every waiter. *)
Definition wake (pc : wpc) : wpc :=
  match pc with WWait => WWoken | _ => pc end.

(** Line 153: shouldWaitForTasks == 0 ? false : true. *)
Definition drain_of (d : Z) : bool := negb (d =? 0)%Z.

(** The statement of client [c], every library call in it succeeding. *)
Definition step_client (c : nat) (s : system) : outcome :=
  match clients s !! c with
  | None => Stuck
  | Some pc =>
    match pc with
    | CIdle => Stuck
    | ICheck NULL _ _ => Undef
    | ICheck POOL f p =>
        if released s then Undef
        else if isShuttingDown (pool s) then Next (ret_insert c RetBadArgs s)
        else match f with
             | None => Next (ret_insert c RetBadArgs s)
             | Some g => Next (set_client c (ICreate g p) s)
             end
    | ICreate f p =>
        Next (set_client c (ILock (length (nodes s))) (alloc_node (mk_task_node f p) s))
    | ILock t => lock (Client c) (set_client c (IEnqueue t)) s
    | IEnqueue t =>
        if negb (queue_live s) then Undef
        else Next (emit [EvEnqueue c t]
                     (set_client c ISignal (set_queue (osEnqueue (taskQueue (pool s)) t) s)))
    | ISignal =>
        if released s then Undef
        else if existsb is_waiting (workers s) then Stuck
        else Next (set_client c IUnlock s)
    | IUnlock => unlock (Client c) (ret_insert c RetInserted) s
    | DCheck NULL _ => Undef
    | DCheck POOL d =>
        if released s then Undef
        else if isShuttingDown (pool s) then Next (ret_destroy c s)
        else Next (set_client c (DLock d) s)
    | DLock d => lock (Client c) (set_client c (DSetDrain d)) s
    | DSetDrain d =>
        if released s then Undef
        else Next (emit [EvSetDrain c (drain_of d)]
                     (set_client c DSetShut (set_drain (drain_of d) s)))
    | DSetShut =>
        if released s then Undef
        else Next (emit [EvSetShut c] (set_client c DBroadcast (set_shut true s)))
    | DBroadcast =>
        if released s then Undef
        else Next (set_client c DUnlock (set_workers (wake <$> workers s) s))
    | DUnlock => unlock (Client c) (set_client c (DJoin 0)) s
    | DJoin i =>
        if released s then Undef
        else if (Z.of_nat i <? numOfThreads (pool s))%Z then
          match workers s !! i with
          | Some WDone => Next (emit [EvJoin c i] (set_client c (DJoin (S i)) (set_worker i WJoined s)))
          | Some WJoined => Undef
          | Some _ => Stuck
          | None => Undef
          end
        else Next (set_client c FCheck s)
    | FCheck =>
        if negb (queue_live s) then Undef
        else if osIsQueueEmpty (taskQueue (pool s)) then Next (set_client c FQueue s)
        else Next (set_client c FDequeue s)
    | FDequeue =>
        if negb (queue_live s) then Undef
        else match osDequeue (taskQueue (pool s)) with
             | None => Undef
             | Some (t, q) =>
                 Next (emit [EvDequeue (Client c) t; EvFree (Client c) t]
                         (set_client c FCheck (set_queue q s)))
             end
    | FQueue =>
        if negb (queue_live s) then Undef
        else Next (set_client c FRelease (set_life QueueGone s))
    | FRelease =>
        match life s, mutexEmptyQ (pool s) with
        | QueueGone, None => Next (ret_destroy c (set_life Released s))
        | _, _ => Undef
        end
    end
  end.

(** The statement of client [c], its library call reporting an error:
    malloc returns null in tnCreate (line 236), a pthread call of
    tpInsertTask returns non-zero (lines 203, 212, 218). *)
Definition fail_client (c : nat) (s : system) : outcome :=
  match clients s !! c with
  | Some (ICreate f p) => Next (ret_insert c RetNoTask s)
  | Some (ILock t) => if released s then Undef else Next (ret_insert c RetLockErr s)
  | Some ISignal => if released s then Undef else Next (ret_insert c RetSignalErr s)
  | Some IUnlock => if released s then Undef else Next (ret_insert c RetUnlockErr s)
  | _ => Stuck
  end.

(** Line 212 with a waiter: pthread_cond_signal unblocks worker [w]. *)
Definition signal_client (c w : nat) (s : system) : outcome :=
  match clients s !! c, workers s !! w with
  | Some ISignal, Some WWait =>
      if released s then Undef
      else Next (set_client c IUnlock (set_worker w WWoken s))
  | _, _ => Stuck
  end.

Definition entry_of (op : api_call) : cpc :=
  match op with
  | Insert h f p => ICheck h f p
  | Destroy h d => DCheck h d
  end.

Definition call_client (c : nat) (op : api_call) (s : system) : outcome :=
  match clients s !! c with
  | Some CIdle => Next (emit [EvCall c op] (set_client c (entry_of op) s))
  | _ => Stuck
  end.

(** A waiter of pthread_cond_wait may return without a signal. *)
Definition spurious (w : nat) (s : system) : outcome :=
  match workers s !! w with
  | Some WWait => Next (set_worker w WWoken s)
  | _ => Stuck
  end.

(** *** Schedules *)

Inductive action :=
| Call (c : nat) (op : api_call)
| Step (t : tid)
| Fail (c : nat)
| Signal (c : nat) (w : nat)
| Spurious (w : nat).

Definition step (a : action) (s : system) : outcome :=
  match a with
  | Call c op => call_client c op s
  | Step (Worker w) => step_worker w s
  | Step (Client c) => step_client c s
  | Fail c => fail_client c s
  | Signal c w => signal_client c w s
  | Spurious w => spurious w s
  end.

Fixpoint run (sched : list action) (s : system) : outcome :=
  match sched with
  | [] => Next s
  | a :: sched' =>
      match step a s with
      | Next s' => run sched' s'
      | Stuck => Stuck
      | Undef => Undef
      end
  end.

(** ** tpCreate *)

(** The answers of the allocator, and the indeterminate content of the
    field shouldWaitForTasks, which tpCreate does not initialise. *)
Record create_env := mk_create_env {
  malloc_pool : bool;
  malloc_array : bool;
  malloc_mutex : bool;
  malloc_cv : bool;
  create_queue : bool;
  malloc_thread : nat → bool;
  junk : bool
}.

(** What tpCreate returns, the threads it has started, and the pool those
    threads run on. *)
Record create_result := mk_create_result {
  handle : pool_ptr;
  threads : list wpc;
  built : option thread_pool
}.

(** Lines 125-131, from index [i], [todo] iterations left. *)
Fixpoint start_threads (e : create_env) (todo i : nat) : bool * list wpc :=
  match todo with
  | 0 => (true, [])
  | S k =>
      if malloc_thread e i then
        let '(ok, ws) := start_threads e k (S i) in (ok, WEntry POOL :: ws)
      else (false, [])
  end.

Definition tpCreate (n : Z) (e : create_env) : create_result :=
  if negb (malloc_pool e) then mk_create_result NULL [] None
  else if negb (malloc_array e) then mk_create_result NULL [] None
  else if negb (malloc_mutex e) then mk_create_result NULL [] None
  else if negb (malloc_cv e) then mk_create_result NULL [] None
  else if negb (create_queue e) then mk_create_result NULL [] None
  else
    let p := mk_pool [] false (junk e) n None in
    let '(ok, ws) := start_threads e (Z.to_nat n) 0 in
    mk_create_result (if ok then POOL else NULL) ws (Some p).

(** The machine after a successful tpCreate, with [m] client threads. *)
Definition boot (r : create_result) (m : nat) : option system :=
  match handle r, built r with
  | POOL, Some p => Some (mk_system p Live (threads r) (replicate m CIdle) [] [])
  | _, _ => None
  end.

Definition initial (n : Z) (e : create_env) (m : nat) : option system :=
  boot (tpCreate n e) m.

(** ** Reading the log *)

Definition enqueued (tr : list event) : list node_ptr :=
  omap (λ e, match e with EvEnqueue _ t => Some t | _ => None end) tr.

Definition dequeued (tr : list event) : list (tid * node_ptr) :=
  omap (λ e, match e with EvDequeue who t => Some (who, t) | _ => None end) tr.

Definition executed (tr : list event) : list node_ptr :=
  omap (λ e, match e with EvExec _ t _ _ => Some t | _ => None end) tr.

Definition freed (tr : list event) : list (tid * node_ptr) :=
  omap (λ e, match e with EvFree who t => Some (who, t) | _ => None end) tr.

Definition drain_writes (tr : list event) : list (nat * bool) :=
  omap (λ e, match e with EvSetDrain c b => Some (c, b) | _ => None end) tr.

Definition shut_writes (tr : list event) : list nat :=
  omap (λ e, match e with EvSetShut c => Some c | _ => None end) tr.

(** ** The monitor discipline *)

(** The statements of tpRoutine between lock and unlock. *)
Definition w_critical (pc : wpc) : bool :=
  match pc with
  | WGuard | WPolicy | WDequeue | WUnlock _ | WExit => true
  | _ => false
  end.

(** The statements of tpInsertTask and tpDestroy between lock and unlock. *)
Definition c_critical (pc : cpc) : bool :=
  match pc with
  | IEnqueue _ | ISignal | IUnlock | DSetDrain _ | DSetShut | DBroadcast | DUnlock => true
  | _ => false
  end.

(** The statements of tpFreeThreadPool. *)
Definition c_teardown (pc : cpc) : bool :=
  match pc with
  | FCheck | FDequeue | FQueue | FRelease => true
  | _ => false
  end.

Record monitor (s : system) : Prop := mk_monitor {
  mon_threads : length (workers s) = Z.to_nat (numOfThreads (pool s));
  mon_worker : ∀ w pc, workers s !! w = Some pc → w_critical pc = true →
               mutexEmptyQ (pool s) = Some (Worker w);
  mon_client : ∀ c pc, clients s !! c = Some pc → c_critical pc = true →
               mutexEmptyQ (pool s) = Some (Client c);
  mon_policy : ∀ w, workers s !! w = Some WPolicy →
               taskQueue (pool s) ≠ [] ∨ isShuttingDown (pool s) = true;
  mon_dequeue : ∀ w, workers s !! w = Some WDequeue → taskQueue (pool s) ≠ [];
  mon_join : ∀ c i, clients s !! c = Some (DJoin i) →
             ∀ k, k < i → workers s !! k = Some WJoined;
  mon_teardown : ∀ c pc, clients s !! c = Some pc → c_teardown pc = true →
                 ∀ k pc', workers s !! k = Some pc' → pc' = WJoined;
  mon_gone : life s ≠ Live → ∀ k pc', workers s !! k = Some pc' → pc' = WJoined
}.

(** The machine a successful tpCreate leaves: every worker at the entry of
    tpRoutine, the queue empty, the mutex free, isShuttingDown false. *)
Definition fresh_system (n : Z) (j : bool) (m : nat) : system :=
  mk_system (mk_pool [] false j n None) Live
    (replicate (Z.to_nat n) (WEntry POOL)) (replicate m CIdle) [] [].

(** ** The ledger of task nodes *)

(** The node a client has built and not yet enqueued. *)
Definition pending_of (pc : cpc) : option node_ptr :=
  match pc with ILock t | IEnqueue t => Some t | _ => None end.

(** The node a worker has dequeued and not yet freed. *)
Definition held_of (pc : wpc) : option node_ptr :=
  match pc with WUnlock t | WCall t | WFree t => Some t | _ => None end.

(** ... and has not yet run. *)
Definition unrun_of (pc : wpc) : option node_ptr :=
  match pc with WUnlock t | WCall t => Some t | _ => None end.

Record ledger (s : system) : Prop := mk_ledger {
  led_fifo : enqueued (trace s) = (dequeued (trace s)).*2 ++ taskQueue (pool s);
  led_once : NoDup (enqueued (trace s));
  led_alloc : ∀ t, t ∈ enqueued (trace s) → t < length (nodes s);
  led_pending : ∀ c pc t, clients s !! c = Some pc → pending_of pc = Some t →
                t < length (nodes s) ∧ t ∉ enqueued (trace s);
  led_pending_one : ∀ c c' pc pc' t,
                clients s !! c = Some pc → clients s !! c' = Some pc' →
                pending_of pc = Some t → pending_of pc' = Some t → c = c';
  led_held : ∀ w pc t, workers s !! w = Some pc → held_of pc = Some t →
             (Worker w, t) ∈ dequeued (trace s) ∧ t ∉ (freed (trace s)).*2;
  led_unrun : ∀ w pc t, workers s !! w = Some pc → unrun_of pc = Some t →
              t ∉ executed (trace s);
  led_ran : ∀ w t, workers s !! w = Some (WFree t) → t ∈ executed (trace s);
  led_exec : ∀ t, t ∈ executed (trace s) → ∃ w, (Worker w, t) ∈ dequeued (trace s);
  led_exec_once : NoDup (executed (trace s));
  led_free_once : NoDup (freed (trace s)).*2;
  led_freed : ∀ who t, (who, t) ∈ freed (trace s) → (who, t) ∈ dequeued (trace s);
  led_freed_ran : ∀ w t, (Worker w, t) ∈ freed (trace s) → t ∈ executed (trace s);
  led_teardown : ∀ c t, (Client c, t) ∈ dequeued (trace s) →
                 (Client c, t) ∈ freed (trace s);
  led_worker : ∀ w t, (Worker w, t) ∈ dequeued (trace s) →
               (∃ pc, workers s !! w = Some pc ∧ held_of pc = Some t) ∨
               (t ∈ executed (trace s) ∧ (Worker w, t) ∈ freed (trace s))
}.

(** ** Calls *)

(** The actions of client [c] inside a call. *)
Definition own_action (c : nat) (a : action) : Prop :=
  match a with
  | Step (Client c') | Fail c' | Signal c' _ => c' = c
  | _ => False
  end.

(** The returns of tpInsertTask that precede line 209. *)
Definition early_return (r : insert_return) : Prop :=
  r = RetBadArgs ∨ r = RetNoTask ∨ r = RetLockErr.

(** An action that is not a new call by client [c]. *)
Definition not_call_of (c : nat) (a : action) : Prop :=
  match a with Call c' _ => c' ≠ c | _ => True end.

(** The statements of tpInsertTask before osEnqueue (line 209). *)
Definition before_enqueue (pc : cpc) : bool :=
  match pc with ICheck _ _ _ | ICreate _ _ | ILock _ => true | _ => false end.

(** The statements of tpInsertTask from which line 209 is still ahead,
    or is the statement itself. *)
Definition may_enqueue (pc : cpc) : bool :=
  match pc with
  | ICheck _ _ _ | ICreate _ _ | ILock _ | IEnqueue _ => true
  | _ => false
  end.

(** The return statements of tpInsertTask that a call at [pc] can still
    reach. *)
Definition reach (pc : cpc) (r : insert_return) : Prop :=
  match pc with
  | ICheck _ _ _ => True
  | ICreate _ _ => r ≠ RetBadArgs
  | ILock _ => r ≠ RetBadArgs ∧ r ≠ RetNoTask
  | IEnqueue _ | ISignal | IUnlock => ¬ early_return r
  | _ => False
  end.

(** What client [c], now at [pc] and making no new call, can still add
    to the log: a return of tpInsertTask only if [pc] reaches it, no
    enqueue once line 209 is behind, and no enqueue at all in a call that
    returns through line 192, 199 or 205. *)
Definition possible (c : nat) (pc : cpc) (l : list event) : Prop :=
  (∀ r, EvInsertRet c r ∈ l →
        reach pc r ∧ (early_return r → ∀ t, EvEnqueue c t ∉ l)) ∧
  (may_enqueue pc = false → ∀ t, EvEnqueue c t ∉ l).

(** A transition of client [c] that leaves the pool record, the lifetime
    of its resources, the worker threads and the other clients as they
    were. *)
Definition untouched (c : nat) (sa sb : system) : Prop :=
  pool sb = pool sa ∧ life sb = life sa ∧ workers sb = workers sa ∧
  ∀ c', c' ≠ c → clients sb !! c' = clients sa !! c'.

(** Every allocation of tpCreate succeeds. *)
Definition all_allocated (n : Z) (e : create_env) : bool :=
  malloc_pool e && malloc_array e && malloc_mutex e && malloc_cv e &&
  create_queue e && forallb (malloc_thread e) (seq 0 (Z.to_nat n)).

(** ** Order *)

(** [a] occurs in [l] before [b]. *)
Definition precedes {A} (l : list A) (a b : A) : Prop :=
  ∃ l1 l2 l3, l = l1 ++ a :: l2 ++ b :: l3.

(** ** One teardown *)

(** The statements of tpDestroy after the first pthread_join. *)
Definition past_join (pc : cpc) : bool :=
  match pc with
  | DJoin (S _) | FCheck | FDequeue | FQueue | FRelease => true
  | _ => false
  end.

Record teardown_once (s : system) : Prop := mk_teardown_once {
  td_pos : (0 < numOfThreads (pool s))%Z;
  td_one : ∀ c c' pc pc', clients s !! c = Some pc → clients s !! c' = Some pc' →
           past_join pc = true → past_join pc' = true → c = c';
  td_dequeue : ∀ c, clients s !! c = Some FDequeue → taskQueue (pool s) ≠ []
}.

(** ** The two flags *)

(** The statements of tpDestroy and tpFreeThreadPool. *)
Definition destroying (pc : cpc) : bool :=
  match pc with
  | DCheck _ _ | DLock _ | DSetDrain _ | DSetShut | DBroadcast | DUnlock | DJoin _
  | FCheck | FDequeue | FQueue | FRelease => true
  | _ => false
  end.

(** The writes of the two flags come in pairs, shouldWaitForTasks first;
    a client between its two writes is at line 154. *)
Record flags (s : system) : Prop := mk_flags {
  fl_paired : ∀ c, clients s !! c = Some DSetShut →
              (drain_writes (trace s)).*1 = shut_writes (trace s) ++ [c];
  fl_settled : (drain_writes (trace s)).*1 = shut_writes (trace s) ∨
               ∃ c, clients s !! c = Some DSetShut;
  fl_shut : isShuttingDown (pool s) = true ↔ shut_writes (trace s) ≠ [];
  fl_drain : ∀ c b, last (drain_writes (trace s)) = Some (c, b) →
             shouldWaitForTasks (pool s) = b
}.

(** Lines 148 and 153: past the guard, before the first write. *)
Definition pre_write (pc : cpc) : bool :=
  match pc with DLock _ | DSetDrain _ => true | _ => false end.

(** Only client [c0] calls tpDestroy. *)
Definition sole_destroyer (c0 : nat) (a : action) : Prop :=
  match a with
  | Call c (Destroy _ _) => c = c0
  | _ => True
  end.

Record destroyed_once (c0 : nat) (s : system) : Prop := mk_destroyed_once {
  do_others : ∀ c pc, clients s !! c = Some pc → destroying pc = true → c = c0;
  do_before : ∀ pc, clients s !! c0 = Some pc → pre_write pc = true →
              drain_writes (trace s) = [] ∧ isShuttingDown (pool s) = false;
  do_count : drain_writes (trace s) = [] ∨
             (length (drain_writes (trace s)) = 1 ∧
              (isShuttingDown (pool s) = true ∨ clients s !! c0 = Some DSetShut))
}.

(** ** A quiescent shutdown *)

(** No new call. *)
Definition quiet (a : action) : Prop :=
  match a with Call _ _ => False | _ => True end.

(** The statements of tpDestroy up to the write of line 154. *)
Definition before_shut (pc : cpc) : bool :=
  match pc with
  | DCheck _ _ | DLock _ | DSetDrain _ | DSetShut => true
  | _ => false
  end.

(** The statements of tpDestroy and tpFreeThreadPool after it. *)
Definition after_shut (pc : cpc) : bool :=
  match pc with
  | DBroadcast | DUnlock | DJoin _ | FCheck | FDequeue | FQueue | FRelease => true
  | _ => false
  end.

(** The statements of tpFreeThreadPool after its loop. *)
Definition queue_done (pc : cpc) : bool :=
  match pc with FQueue | FRelease => true | _ => false end.

(** The argument shouldWaitForTasks of a call of tpDestroy, while the
    call still needs it. *)
Definition drain_arg (pc : cpc) : option Z :=
  match pc with
  | DCheck _ d | DLock d | DSetDrain d => Some d
  | _ => None
  end.

(** A pool whose resources are going is shutting down. *)
Record shut_held (s : system) : Prop := mk_shut_held {
  sh_after : ∀ c pc, clients s !! c = Some pc → after_shut pc = true →
             isShuttingDown (pool s) = true;
  sh_gone : life s ≠ Live → isShuttingDown (pool s) = true
}.

(** The machine while client [c0] runs tpDestroy(pool, d), no other call
    being in flight. *)
Record closing (c0 : nat) (d : Z) (s : system) : Prop := mk_closing {
  cl_others : ∀ c pc, clients s !! c = Some pc → c ≠ c0 → pc = CIdle;
  cl_arg : ∀ pc d', clients s !! c0 = Some pc → drain_arg pc = Some d' → d' = d;
  cl_before : ∀ pc, clients s !! c0 = Some pc → before_shut pc = true →
              isShuttingDown (pool s) = false;
  cl_written : clients s !! c0 = Some DSetShut →
               shouldWaitForTasks (pool s) = drain_of d;
  cl_drain : isShuttingDown (pool s) = true →
             shouldWaitForTasks (pool s) = drain_of d;
  cl_queue : ∀ pc, clients s !! c0 = Some pc → queue_done pc = true →
             taskQueue (pool s) = [];
  cl_empty : life s ≠ Live → taskQueue (pool s) = [];
  cl_nodeq : isShuttingDown (pool s) = true → drain_of d = false →
             ∀ w, workers s !! w = Some WDequeue → False
}.





(** ** The order of the log *)


(** tpFreeThreadPool dequeues only after the workers: once a client has
    dequeued a node, every worker is joined. *)
Record workers_first (s : system) : Prop := mk_workers_first {
  wf_joined : ∀ c t, (Client c, t) ∈ dequeued (trace s) →
              ∀ k pc, workers s !! k = Some pc → pc = WJoined;
  wf_order : ∀ c t w t',
             precedes (dequeued (trace s)) (Client c, t) (Worker w, t') → False
}.

(** ** Example runs *)

Definition env_ok : create_env :=
  mk_create_env true true true true true (λ _, true) false.

(** tpInsertTask(pool, f, p) by client [c], no waiter to wake. *)
Definition submit (c : nat) (f : fn) (p : arg) : list action :=
  [Call c (Insert POOL (Some f) p); Step (Client c); Step (Client c);
   Step (Client c); Step (Client c); Step (Client c); Step (Client c)].

(** One worker, two clients.  After the call of tpInsertTask by client 0:
    client 0 passes line 190; client 1 submits node 0; the worker takes
    the mutex; malloc fails for client 0 at line 236, which returns
    through line 199; the worker dequeues node 0. *)
Definition failing_submit : list action :=
  [Step (Worker 0); Step (Client 0)] ++ submit 1 7 1 ++
  [Step (Worker 0); Step (Worker 0); Fail 0; Step (Worker 0); Step (Worker 0)].

(** One worker, one client: tpDestroy(pool, 1) from its call to its
    return; the worker sees isShuttingDown and exits, is joined, and
    tpFreeThreadPool releases the pool. *)
Definition whole_destroy : list action :=
  [Call 0 (Destroy POOL 1);
   Step (Client 0); Step (Client 0); Step (Client 0); Step (Client 0);
   Step (Client 0); Step (Client 0);
   Step (Worker 0); Step (Worker 0); Step (Worker 0); Step (Worker 0);
   Step (Worker 0);
   Step (Client 0); Step (Client 0); Step (Client 0); Step (Client 0);
   Step (Client 0)].

(** One worker, two clients: both calls of tpDestroy pass line 144 while
    isShuttingDown is false; client 0 then runs lines 148-163. *)
Definition racing_destroys : list action :=
  [Call 0 (Destroy POOL 0); Step (Client 0);
   Call 1 (Destroy POOL 1); Step (Client 1);
   Step (Client 0); Step (Client 0); Step (Client 0); Step (Client 0);
   Step (Client 0)].

(** Client 1 takes the mutex and runs line 153. *)
Definition second_write : list action := [Step (Client 1); Step (Client 1)].

(** Client 1 runs lines 154-163, the worker exits, client 0 joins it at
    line 168, and client 1 reaches line 168 for the same thread. *)
Definition second_join : list action :=
  [Step (Client 1); Step (Client 1); Step (Client 1);
   Step (Worker 0); Step (Worker 0); Step (Worker 0); Step (Worker 0);
   Step (Worker 0);
   Step (Client 0); Step (Client 1)].








(** One worker, one client: nodes 0 and 1 are submitted one call after the
    other, then the worker dequeues both. *)
Definition two_served : list action :=
  [Step (Worker 0); Step (Worker 0); Step (Worker 0);
   Call 0 (Insert POOL (Some 7) 0); Step (Client 0); Step (Client 0);
   Step (Client 0); Step (Client 0); Signal 0 0; Step (Client 0)] ++
  submit 0 7 1 ++
  [Step (Worker 0); Step (Worker 0); Step (Worker 0); Step (Worker 0);
   Step (Worker 0); Step (Worker 0); Step (Worker 0); Step (Worker 0);
   Step (Worker 0); Step (Worker 0); Step (Worker 0)].

(** One worker, one client: node 0 is submitted and the woken worker has
    reached line 57. *)
Definition ready_to_dequeue : list action :=
  [Step (Worker 0); Step (Worker 0); Step (Worker 0);
   Call 0 (Insert POOL (Some 7) 0); Step (Client 0); Step (Client 0);
   Step (Client 0); Step (Client 0); Signal 0 0; Step (Client 0);
   Step (Worker 0); Step (Worker 0); Step (Worker 0)].
(** ** Further invariants and example runs *)

(** The mutex belongs to a worker only between its lock and its unlock. *)
Definition lock_scope (s : system) : Prop :=
  ∀ w, mutexEmptyQ (pool s) = Some (Worker w) →
       ∃ pc, workers s !! w = Some pc ∧ w_critical pc = true.

(** One worker, one client: node 0 is submitted, the worker has dequeued
    it and released the mutex; it is about to run it. *)
Definition running_task : list action :=
  ready_to_dequeue ++ [Step (Worker 0); Step (Worker 0)].

(** The statements of tpRoutine after its loop, and the states after them. *)
Definition w_exiting (pc : wpc) : bool :=
  match pc with WExit | WDone | WJoined => true | _ => false end.

(** Every worker was started on the pool, and leaves its loop only when
    the pool is shutting down. *)
Definition serving (s : system) : Prop :=
  ∀ w pc, workers s !! w = Some pc →
          pc ≠ WEntry NULL ∧ (w_exiting pc = true → isShuttingDown (pool s) = true).

(** Every worker has been joined. *)
Definition all_joined (s : system) : Prop :=
  ∀ k pc, workers s !! k = Some pc → pc = WJoined.

(** One worker, one client: the worker waits, tpDestroy(pool, 1) runs up
    to its first join, the woken worker reaches line 67. *)
Definition shut_idle : list action :=
  [Step (Worker 0); Step (Worker 0); Step (Worker 0);
   Call 0 (Destroy POOL 1); Step (Client 0); Step (Client 0); Step (Client 0);
   Step (Client 0); Step (Client 0); Step (Client 0);
   Step (Worker 0); Step (Worker 0); Step (Worker 0)].

(** The same, then the worker exits and is joined: tpFreeThreadPool is at
    line 258. *)
Definition shut_joined : list action :=
  shut_idle ++ [Step (Worker 0); Step (Client 0); Step (Client 0)].

(** The nodes dequeued by workers (line 57), with the worker. *)
Definition worker_dequeues (tr : list event) : list (nat * node_ptr) :=
  omap (λ e, match e with EvDequeue (Worker w) t => Some (w, t) | _ => None end) tr.

(** The pool handed to an API call. *)
Definition handle_of (op : api_call) : pool_ptr :=
  match op with Insert h _ _ | Destroy h _ => h end.

(** tpInsertTask(pool, f, p) by client [c], run without interruption; the
    signal of line 212 unblocks waiter [w], or finds no waiter. *)
Definition submit_waking (c : nat) (f : fn) (p : arg) (wk : option nat) : list action :=
  [Call c (Insert POOL (Some f) p); Step (Client c); Step (Client c);
   Step (Client c); Step (Client c);
   match wk with Some w => Signal c w | None => Step (Client c) end;
   Step (Client c)].



(** Where a task node comes from: the call of tpInsertTask that a client
    is in carries the function and the parameter it was given, a node
    holds those of the call that built it, and line 61 calls the function
    of the node on the parameter of the node. *)
Record provenance (s : system) : Prop := mk_provenance {
  pv_check : ∀ c h f p, clients s !! c = Some (ICheck h f p) →
             EvCall c (Insert h f p) ∈ trace s;
  pv_create : ∀ c f p, clients s !! c = Some (ICreate f p) →
              EvCall c (Insert POOL (Some f) p) ∈ trace s;
  pv_node : ∀ t nd, nodes s !! t = Some nd →
            ∃ c, EvCall c (Insert POOL (Some (computeFunc nd)) (parameters nd)) ∈ trace s;
  pv_exec : ∀ l1 l2 w t f p, trace s = l1 ++ EvExec w t f p :: l2 →
            nodes s !! t = Some (mk_task_node f p) ∧
            ∃ c, EvCall c (Insert POOL (Some f) p) ∈ l1
}.

(** One worker, one client: node 0 is submitted, the worker has dequeued
    it, released the mutex and run it. *)
Definition task_run : list action := running_task ++ [Step (Worker 0)].

(** The statements of tpInsertTask. *)
Definition inserting (pc : cpc) : bool :=
  match pc with
  | ICheck _ _ _ | ICreate _ _ | ILock _ | IEnqueue _ | ISignal | IUnlock => true
  | _ => false
  end.

(** The machine while client [c0] runs tpDestroy with a non-zero
    shouldWaitForTasks and no other call is in flight: a worker that has
    left its loop found the queue empty, and tpFreeThreadPool has found
    nothing to dequeue. *)
Record draining (c0 : nat) (s : system) : Prop := mk_draining {
  dr_pos : 0 < length (workers s);
  dr_noinsert : ∀ pc, clients s !! c0 = Some pc → inserting pc = false;
  dr_exit : ∀ w pc, workers s !! w = Some pc → w_exiting pc = true →
            taskQueue (pool s) = [];
  dr_client : ∀ c t, (Client c, t) ∉ dequeued (trace s);
  dr_fdeq : ∀ c, clients s !! c = Some FDequeue → False
}.

(** The worker takes node 0 and releases the mutex, tpDestroy sets the
    flags and waits for the worker, the worker runs and frees the node,
    finds the queue empty and exits, tpDestroy joins it and releases the
    pool. *)
Definition drain_down : list action :=
  [Step (Worker 0); Step (Worker 0);
   Step (Client 0); Step (Client 0); Step (Client 0); Step (Client 0);
   Step (Client 0); Step (Client 0);
   Step (Worker 0); Step (Worker 0); Step (Worker 0); Step (Worker 0);
   Step (Worker 0); Step (Worker 0);
   Step (Client 0); Step (Client 0); Step (Client 0); Step (Client 0);
   Step (Client 0)].

(** The statements of tpDestroy before the first pthread_join. *)
Definition before_join (pc : cpc) : bool :=
  match pc with
  | DCheck _ _ | DLock _ | DSetDrain _ | DSetShut | DBroadcast | DUnlock => true
  | _ => false
  end.

(** The statements of tpDestroy and tpFreeThreadPool after the lock of
    line 148. *)
Definition past_lock (pc : cpc) : bool :=
  match pc with
  | DSetDrain _ | DSetShut | DBroadcast | DUnlock | DJoin _
  | FCheck | FDequeue | FQueue | FRelease => true
  | _ => false
  end.

(** The machine while client [c0] is the only client inside a call, and
    that call is tpDestroy: the pool is whole until tpFreeThreadPool
    takes it apart, the mutex is not left locked by a client, and no
    worker at or above the index of the join loop has been joined. *)
Record orderly (c0 : nat) (s : system) : Prop := mk_orderly {
  or_noinsert : ∀ pc, clients s !! c0 = Some pc → inserting pc = false;
  or_handle : ∀ h d, clients s !! c0 = Some (DCheck h d) → h = POOL;
  or_live : ∀ pc, clients s !! c0 = Some pc → destroying pc = true →
            pc ≠ FRelease → life s = Live;
  or_gone : clients s !! c0 = Some FRelease → life s = QueueGone;
  or_lock : ∀ pc c, clients s !! c0 = Some pc → past_lock pc = true →
            mutexEmptyQ (pool s) = Some (Client c) → c = c0 ∧ c_critical pc = true;
  or_join : ∀ i, clients s !! c0 = Some (DJoin i) →
            ∀ k, i ≤ k → workers s !! k ≠ Some WJoined;
  or_prejoin : ∀ pc, clients s !! c0 = Some pc → before_join pc = true →
               ∀ k, workers s !! k ≠ Some WJoined;
  or_fdeq : clients s !! c0 = Some FDequeue → taskQueue (pool s) ≠ []
}.

(** A woken worker serves the node at the head of the queue and waits
    again. *)
Definition serve (w : nat) : list action := replicate 9 (Step (Worker w)).

(** Woken worker [w] finds the pool shutting down and the queue empty,
    exits, and client [c] joins it. *)
Definition retire (c w : nat) : list action :=
  [Step (Worker w); Step (Worker w); Step (Worker w); Step (Worker w); Step (Client c)].

(** The same for the [k] workers from index [i] on, in the order of the
    join loop. *)
Fixpoint retire_from (c i k : nat) : list action :=
  match k with
  | 0 => []
  | S k' => retire c i ++ retire_from c (S i) k'
  end.

(** tpDestroy(pool, d) by client [c] on a pool of [k] waiting workers. *)
Definition destroy_idle (c : nat) (d : Z) (k : nat) : list action :=
  Call c (Destroy POOL d) :: replicate 6 (Step (Client c)) ++
  retire_from c 0 k ++ replicate 4 (Step (Client c)).

(** The machine inside the join loop of tpDestroy: the first [i] workers
    joined, the [j] others woken by the broadcast. *)
Definition retiring (s : system) (c : nat) (b : bool) (i j : nat)
    (tr : list event) : system :=
  mk_system (mk_pool [] true b (numOfThreads (pool s)) None) Live
    (replicate i WJoined ++ replicate j WWoken) (<[c := DJoin i]> (clients s))
    (nodes s) tr.

(** An outcome, its state changed by [f]. *)
Definition map_outcome (f : system → system) (o : outcome) : outcome :=
  match o with
  | Next s => Next (f s)
  | Stuck => Stuck
  | Undef => Undef
  end.

(** Two machines that differ at most in shouldWaitForTasks, and only
    while the pool is not shutting down and no client is between the two
    writes of tpDestroy. *)
Definition same_but_drain (s s' : system) : Prop :=
  s' = s ∨
  ∃ b, s' = set_drain b s ∧ isShuttingDown (pool s) = false ∧
       ∀ c, clients s !! c ≠ Some DSetShut.

(** Two outcomes of the same kind, their states related as above. *)
Definition same_outcome (o o' : outcome) : Prop :=
  match o, o' with
  | Next s, Next s' => same_but_drain s s'
  | Stuck, Stuck => True
  | Undef, Undef => True
  | _, _ => False
  end.

(** Every allocation succeeds, and shouldWaitForTasks happens to hold
    true. *)
Definition env_junk : create_env :=
  mk_create_env true true true true true (λ _, true) true.

(** The workers joined so far (lines 166-171), in the order of the log. *)
Definition joins (tr : list event) : list nat :=
  omap (λ e, match e with EvJoin _ w => Some w | _ => None end) tr.

(** Lines 154-161: the flag is set, the join loop not yet entered. *)
Definition before_loop (pc : cpc) : bool :=
  match pc with DSetShut | DBroadcast | DUnlock => true | _ => false end.

(** The join loop of the one client [c0] that calls tpDestroy: the
    workers joined are those below [j], the log names them in that order,
    and [j] is the index of the loop. *)
Record join_loop (c0 j : nat) (s : system) : Prop := mk_join_loop {
  jl_log : joins (trace s) = seq 0 j;
  jl_joined : ∀ k pc, workers s !! k = Some pc → (pc = WJoined ↔ k < j);
  jl_index : ∀ i, clients s !! c0 = Some (DJoin i) → i = j;
  jl_before : ∀ pc, clients s !! c0 = Some pc → before_loop pc = true → j = 0;
  jl_unshut : isShuttingDown (pool s) = false → j = 0
}.

(** A worker that is not blocked in pthread_cond_wait. *)
Definition awake (pc : wpc) : bool :=
  match pc with WWait => false | _ => true end.

(** Some worker of the list is awake. *)
Definition some_awake (ws : list wpc) : Prop :=
  ∃ w pc, ws !! w = Some pc ∧ awake pc = true.

(** No wake-up is lost: while the pool is not shutting down, a queue that
    holds a node has a worker awake, or a client holding the mutex; and a
    client that has passed the signal of line 212 leaves a worker awake. *)
Record attentive (s : system) : Prop := mk_attentive {
  at_pos : 0 < length (workers s);
  at_queue : isShuttingDown (pool s) = false → taskQueue (pool s) ≠ [] →
             some_awake (workers s) ∨ ∃ c, mutexEmptyQ (pool s) = Some (Client c);
  at_unlock : ∀ c, clients s !! c = Some IUnlock → some_awake (workers s)
}.

(** One worker, one client: the worker waits, node 0 is submitted and the
    signal wakes the worker, which has not yet taken the mutex. *)
Definition one_woken : list action :=
  [Step (Worker 0); Step (Worker 0); Step (Worker 0)] ++ submit_waking 0 7 9 (Some 0).

(** One worker, one client: node 0 is submitted and served, then
    tpDestroy(pool, 0) runs to its end. *)
Definition served_then_destroyed : list action :=
  [Step (Worker 0); Step (Worker 0); Step (Worker 0)] ++
  submit_waking 0 7 9 (Some 0) ++ serve 0 ++ destroy_idle 0 0 1.

(** Node [t] is allocated, was never enqueued, and no call of tpInsertTask
    in flight holds it. *)
Definition lost (t : node_ptr) (s : system) : Prop :=
  t < length (nodes s) ∧ (t ∉ enqueued (trace s)) ∧
  ∀ c pc, clients s !! c = Some pc → pending_of pc ≠ Some t.

(** One client: tpInsertTask has built node 0 and is at the lock of line
    203. *)
Definition at_lock : list action :=
  [Call 0 (Insert POOL (Some 7) 9); Step (Client 0); Step (Client 0)].


(** * Properties *)

(** ** Lists and lookups *)


Lemma lookup_set {A} (l : list A) (i j : nat) (x y : A) :
  <[i:=x]> l !! j = Some y → (j = i ∧ y = x) ∨ (j ≠ i ∧ l !! j = Some y).
Proof.
  intros H. destruct (decide (j = i)) as [->|Hne].
  - left. split; [done|].
    destruct (decide (i < length l)) as [Hlt|Hge].
    + rewrite list_lookup_insert_eq in H by done. congruence.
    + rewrite list_insert_ge in H by lia.
      apply lookup_lt_Some in H. lia.
  - right. split; [done|]. by rewrite list_lookup_insert_ne in H.
Qed.

Lemma lookup_wake (l : list wpc) (j : nat) (y : wpc) :
  (wake <$> l) !! j = Some y → ∃ y0, l !! j = Some y0 ∧ y = wake y0.
Proof.
  rewrite list_lookup_fmap. destruct (l !! j) as [y0|]; simpl; [|done].
  intros [= <-]. eauto.
Qed.

Lemma lookup_set_keep {A} (l : list A) (i j : nat) (x y : A) :
  l !! j = Some y → (j = i → x = y) → <[i:=x]> l !! j = Some y.
Proof.
  intros Hj Hx. destruct (decide (j = i)) as [->|Hne].
  - rewrite list_lookup_insert_eq by (by eapply lookup_lt_Some).
    f_equal. auto.
  - by rewrite list_lookup_insert_ne.
Qed.

Lemma wait_guard_false q sh :
  wait_guard (osIsQueueEmpty q) sh = false → q ≠ [] ∨ sh = true.
Proof. destruct q, sh; simpl; intros; auto; discriminate. Qed.

Lemma policy_take sh dr q :
  shutdown_policy sh dr (osIsQueueEmpty q) = TakeTask →
  q ≠ [] ∨ sh = true → q ≠ [].
Proof. destruct sh, dr, q; simpl; intros ? [?|?]; try done; discriminate. Qed.

(** Every transition, as an equation on the next state. *)
Ltac step_inv H :=
  unfold step, step_worker, step_client, fail_client, signal_client,
    call_client, spurious, lock, unlock, owned_by, queue_live, released in H;
  repeat case_match; simplify_eq.

Ltac split_lookups :=
  repeat match goal with
  | H : <[_:=_]> _ !! _ = Some _ |- _ =>
      apply lookup_set in H; destruct H as [[? ?]|[? H]]
  | H : (wake <$> _) !! _ = Some _ |- _ =>
      let pc := fresh "pc" in
      apply lookup_wake in H; destruct H as (pc & H & ?); destruct pc
  end; simpl in *; simplify_eq.

Ltac pose_new p :=
  let T := type of p in
  lazymatch goal with
  | _ : T |- _ => fail
  | _ => pose proof p
  end.

Ltac use_monitor Hw Hc Hp Hd Hj Ht Hg :=
  repeat match goal with
  | H : workers _ !! _ = Some ?pc |- _ =>
      lazymatch eval cbn in (w_critical pc) with
      | true => pose_new (Hw _ _ H eq_refl)
      end
  | H : workers _ !! _ = Some WPolicy |- _ => pose_new (Hp _ H)
  | H : workers _ !! _ = Some WDequeue |- _ => pose_new (Hd _ H)
  | H : clients _ !! _ = Some ?pc |- _ =>
      lazymatch eval cbn in (c_critical pc) with
      | true => pose_new (Hc _ _ H eq_refl)
      end
  | H : clients _ !! _ = Some ?pc, H' : workers _ !! _ = Some _ |- _ =>
      lazymatch eval cbn in (c_teardown pc) with
      | true => pose_new (Ht _ _ H eq_refl _ _ H')
      end
  | H : clients _ !! _ = Some (DJoin ?i), H' : ?k < ?i |- _ =>
      pose_new (Hj _ _ H _ H')
  | H : workers _ !! _ = Some ?pc, H' : w_critical ?pc = true |- _ =>
      pose_new (Hw _ _ H H')
  | H : clients _ !! _ = Some ?pc, H' : c_critical ?pc = true |- _ =>
      pose_new (Hc _ _ H H')
  | H : clients _ !! _ = Some ?pc, H' : c_teardown ?pc = true,
    H'' : workers _ !! _ = Some _ |- _ =>
      pose_new (Ht _ _ H H' _ _ H'')
  | H' : workers _ !! _ = Some _ |- _ =>
      pose_new (Hg ltac:(first [assumption | congruence]) _ _ H')
  end.

(** ** Runs *)

Lemma run_app sched1 sched2 s :
  run (sched1 ++ sched2) s =
  match run sched1 s with
  | Next s' => run sched2 s'
  | Stuck => Stuck
  | Undef => Undef
  end.
Proof.
  revert s. induction sched1 as [|a sched1 IH]; intros s; simpl; [done|].
  destruct (step a s); auto.
Qed.

Lemma run_preserves (P : system → Prop) :
  (∀ a s s', P s → step a s = Next s' → P s') →
  ∀ sched s s', P s → run sched s = Next s' → P s'.
Proof.
  intros Hstep sched. induction sched as [|a sched IH]; simpl; intros s s' HP Hrun.
  - by simplify_eq.
  - destruct (step a s) as [s1| |] eqn:Hs; try done. eauto.
Qed.

(** The log only grows. *)
Lemma trace_grows a s s' : step a s = Next s' → ∃ evs, trace s' = trace s ++ evs.
Proof.
  intros Hs.
  destruct a as [c op|[w|c]|c|c w|w]; step_inv Hs; simpl;
    solve [by eexists | exists []; by rewrite app_nil_r].
Qed.

Lemma trace_grows_run sched s s' :
  run sched s = Next s' → ∃ evs, trace s' = trace s ++ evs.
Proof.
  revert s. induction sched as [|a sched IH]; simpl; intros s Hrun.
  - simplify_eq. exists []. by rewrite app_nil_r.
  - destruct (step a s) as [s1| |] eqn:Hs; try done.
    apply trace_grows in Hs as [e1 He1].
    apply IH in Hrun as [e2 He2]. exists (e1 ++ e2).
    by rewrite He2, He1, app_assoc.
Qed.

Lemma start_threads_ok e k i ws :
  start_threads e k i = (true, ws) → ws = replicate k (WEntry POOL).
Proof.
  revert i ws. induction k as [|k IH]; simpl; intros i ws H.
  - by simplify_eq.
  - destruct (malloc_thread e i); [|done].
    destruct (start_threads e k (S i)) as [ok ws'] eqn:Hk. simplify_eq.
    f_equal. eauto.
Qed.


Lemma enqueued_app tr1 tr2 : enqueued (tr1 ++ tr2) = enqueued tr1 ++ enqueued tr2.
Proof. apply omap_app. Qed.
Lemma dequeued_app tr1 tr2 : dequeued (tr1 ++ tr2) = dequeued tr1 ++ dequeued tr2.
Proof. apply omap_app. Qed.
Lemma executed_app tr1 tr2 : executed (tr1 ++ tr2) = executed tr1 ++ executed tr2.
Proof. apply omap_app. Qed.
Lemma freed_app tr1 tr2 : freed (tr1 ++ tr2) = freed tr1 ++ freed tr2.
Proof. apply omap_app. Qed.
Lemma drain_writes_app tr1 tr2 :
  drain_writes (tr1 ++ tr2) = drain_writes tr1 ++ drain_writes tr2.
Proof. apply omap_app. Qed.
Lemma shut_writes_app tr1 tr2 :
  shut_writes (tr1 ++ tr2) = shut_writes tr1 ++ shut_writes tr2.
Proof. apply omap_app. Qed.

Lemma NoDup_snoc {A} (l : list A) (x : A) : NoDup l → x ∉ l → NoDup (l ++ [x]).
Proof.
  intros Hl Hx. apply NoDup_app. split; [done|]. split.
  - intros y Hy ->%list_elem_of_singleton. done.
  - apply NoDup_singleton.
Qed.

Lemma elem_of_snoc {A} (l : list A) (x y : A) : y ∈ l ++ [x] ↔ y ∈ l ∨ y = x.
Proof. rewrite elem_of_app, list_elem_of_singleton. done. Qed.

Lemma elem_of_snd {A B} (l : list (A * B)) (a : A) (b : B) :
  (a, b) ∈ l → b ∈ l.*2.
Proof. intros H. apply list_elem_of_fmap. by exists (a, b). Qed.

Lemma snd_elem_of {A B} (l : list (A * B)) (b : B) :
  b ∈ l.*2 → ∃ a, (a, b) ∈ l.
Proof. intros ([a b'] & -> & H)%list_elem_of_fmap. eauto. Qed.

(** In a list of pairs whose second components differ, the second
    component determines the first. *)
Lemma NoDup_snd_owner {A B} (l : list (A * B)) (a a' : A) (b : B) :
  NoDup l.*2 → (a, b) ∈ l → (a', b) ∈ l → a = a'.
Proof.
  induction l as [|[x y] l IH]; simpl; intros Hnd H1 H2.
  - by apply elem_of_nil in H1.
  - apply NoDup_cons in Hnd as [Hy Hnd].
    apply elem_of_cons in H1 as [H1|H1]; apply elem_of_cons in H2 as [H2|H2];
      simplify_eq; auto.
    + destruct Hy. by eapply elem_of_snd.
    + destruct Hy. by eapply elem_of_snd.
Qed.

Lemma ledger_deq_once s : ledger s → NoDup (dequeued (trace s)).*2.
Proof.
  intros L. pose proof (led_once s L) as H. rewrite (led_fifo s L) in H.
  by apply NoDup_app in H as [? _].
Qed.

Lemma ledger_queued s t :
  ledger s → t ∈ taskQueue (pool s) → t ∉ (dequeued (trace s)).*2.
Proof.
  intros L Hq Hd. pose proof (led_once s L) as H. rewrite (led_fifo s L) in H.
  apply NoDup_app in H as (_ & H & _). by eapply H.
Qed.

(** The discipline is kept by every transition: a thread between lock
    and unlock owns the mutex, a worker about to dequeue sees a non-empty
    queue, and tpFreeThreadPool runs only once every worker is joined. *)
Lemma monitor_step a s s' : monitor s → step a s = Next s' → monitor s'.
Proof.
  intros [Hn Hw Hc Hp Hd Hj Ht Hg] Hs.
  destruct a as [c op|[w|c]|c|c w|w]; step_inv Hs.
  all: try match goal with op : api_call |- _ => destruct op end.
  all: split; simpl; intros.
  all: rewrite ?length_insert, ?length_fmap; try done.
  all: split_lookups.
  all: try done.
  all: simpl in *.
  all: use_monitor Hw Hc Hp Hd Hj Ht Hg.
  all: try congruence.
  all: try (by eauto).
  all: try (apply lookup_set_keep; [by eauto|congruence]).
  all: try (rewrite list_lookup_fmap; by simplify_option_eq).
  all: try (eapply wait_guard_false; eassumption).
  all: try (eapply policy_take; eassumption).
  all: try lia.
  all: try (destruct (decide (k = i)) as [->|?];
            [ rewrite list_lookup_insert_eq by (by eapply lookup_lt_Some); done
            | rewrite list_lookup_insert_ne by done; eapply Hj; [eassumption|lia] ]).
  all: match goal with
       | Hk : workers _ !! ?k = Some ?pc |- ?pc = WJoined =>
           pose proof (lookup_lt_Some _ _ _ Hk);
           assert (workers s !! k = Some WJoined) by (eapply Hj; [eassumption|lia]);
           congruence
       end.
Qed.


Lemma initial_fresh n e m s0 :
  initial n e m = Some s0 → s0 = fresh_system n (junk e) m.
Proof.
  unfold initial, boot, tpCreate.
  repeat (case_match; simpl in *; simplify_eq); intros; simplify_eq.
  unfold fresh_system. repeat f_equal. eauto using start_threads_ok.
Qed.

Lemma monitor_fresh n j m : monitor (fresh_system n j m).
Proof.
  split; simpl; intros;
    repeat match goal with
    | H : replicate _ _ !! _ = Some _ |- _ => apply lookup_replicate in H; destruct H
    end; simplify_eq; try done.
  by rewrite length_replicate.
Qed.

Lemma monitor_run n e m s0 sched s :
  initial n e m = Some s0 → run sched s0 = Next s → monitor s.
Proof.
  intros H0 Hrun. apply initial_fresh in H0 as ->.
  eapply run_preserves; [|apply monitor_fresh|done].
  intros. by eapply monitor_step.
Qed.

Lemma held_keep (ws : list wpc) (w w0 : nat) (x pc0 : wpc) (t : node_ptr) :
  ws !! w0 = Some pc0 → held_of pc0 = Some t →
  (w0 = w → held_of x = Some t) →
  ∃ pc, <[w:=x]> ws !! w0 = Some pc ∧ held_of pc = Some t.
Proof.
  intros Hl Hh Hx. destruct (decide (w0 = w)) as [->|Hne].
  - exists x. rewrite list_lookup_insert_eq by (by eapply lookup_lt_Some). auto.
  - exists pc0. by rewrite list_lookup_insert_ne.
Qed.

Lemma held_wake (ws : list wpc) (w0 : nat) (pc0 : wpc) (t : node_ptr) :
  ws !! w0 = Some pc0 → held_of pc0 = Some t →
  ∃ pc, (wake <$> ws) !! w0 = Some pc ∧ held_of pc = Some t.
Proof.
  intros Hl Hh. exists (wake pc0). rewrite list_lookup_fmap, Hl.
  split; [done|]. by destruct pc0.
Qed.

Ltac worker_field L :=
  lazymatch goal with
  | H0 : (Worker ?w0, ?t) ∈ dequeued (trace ?s)
    |- (∃ pc, _ !! ?w0 = Some pc ∧ held_of pc = Some ?t) ∨ _ =>
      let pc0 := fresh "pc" in
      let Hl := fresh "Hl" in
      let Hh := fresh "Hh" in
      destruct (led_worker s L w0 t H0) as [(pc0 & Hl & Hh)|[? ?]];
      [ first
          [ left; eapply held_keep; [exact Hl|exact Hh|intros ->; by simplify_eq]
          | left; eapply held_wake; [exact Hl|exact Hh]
          | left; by eauto
          | idtac ]
      | right; rewrite ?elem_of_snoc; by auto ]
  end.

Lemma osDequeue_Some q t q' : osDequeue q = Some (t, q') → q = t :: q'.
Proof. destruct q; simpl; intros; by simplify_eq. Qed.

Lemma ledger_queued_free s t :
  ledger s → t ∈ taskQueue (pool s) → t ∉ (freed (trace s)).*2.
Proof.
  intros L Hq (who & Hf)%snd_elem_of. eapply ledger_queued; eauto.
  eapply elem_of_snd, led_freed; eauto.
Qed.

Lemma ledger_queued_exec s t :
  ledger s → t ∈ taskQueue (pool s) → t ∉ executed (trace s).
Proof.
  intros L Hq (w & Hd)%(led_exec s L). eapply ledger_queued; eauto using elem_of_snd.
Qed.

Lemma ledger_owner s a b t :
  ledger s → (a, t) ∈ dequeued (trace s) → (b, t) ∈ dequeued (trace s) → a = b.
Proof. intros L. apply NoDup_snd_owner. by apply ledger_deq_once. Qed.

Lemma unrun_held pc t : unrun_of pc = Some t → held_of pc = Some t.
Proof. destruct pc; simpl; congruence. Qed.

Ltac owner_clash L :=
  match goal with
  | H1 : (Worker ?a, ?t) ∈ dequeued (trace ?s),
    H2 : (Worker ?b, ?t) ∈ dequeued (trace ?s), Hne : ?b ≠ ?a |- _ =>
      destruct Hne; by injection (ledger_owner s _ _ t L H2 H1)
  | H1 : (Worker ?a, ?t) ∈ dequeued (trace ?s),
    H2 : (Worker ?b, ?t) ∈ dequeued (trace ?s), Hne : ?a ≠ ?b |- _ =>
      destruct Hne; by injection (ledger_owner s _ _ t L H1 H2)
  end.

Ltac log_simpl :=
  rewrite ?enqueued_app, ?dequeued_app, ?executed_app, ?freed_app in *;
  simpl in *; rewrite ?app_nil_r, ?fmap_app in *; simpl in *.

Ltac use_ledger L :=
  repeat match goal with
  | H : workers _ !! _ = Some ?pc |- _ =>
      lazymatch eval cbn in (held_of pc) with
      | Some ?t => pose_new (led_held _ L _ _ _ H eq_refl)
      end
  | H : workers _ !! _ = Some ?pc |- _ =>
      lazymatch eval cbn in (unrun_of pc) with
      | Some ?t => pose_new (led_unrun _ L _ _ _ H eq_refl)
      end
  | H : workers _ !! _ = Some (WFree _) |- _ => pose_new (led_ran _ L _ _ H)
  | H : clients _ !! _ = Some ?pc |- _ =>
      lazymatch eval cbn in (pending_of pc) with
      | Some ?t => pose_new (led_pending _ L _ _ _ H eq_refl)
      end
  | H : workers _ !! _ = Some ?pc, H' : held_of ?pc = Some _ |- _ =>
      pose_new (led_held _ L _ _ _ H H')
  | H : workers _ !! _ = Some ?pc, H' : unrun_of ?pc = Some _ |- _ =>
      pose_new (led_unrun _ L _ _ _ H H')
  | H : workers _ !! _ = Some ?pc, H' : unrun_of ?pc = Some _ |- _ =>
      pose_new (led_held _ L _ _ _ H (unrun_held _ _ H'))
  | H : clients _ !! _ = Some ?pc, H' : pending_of ?pc = Some _ |- _ =>
      pose_new (led_pending _ L _ _ _ H H')
  end.

(** The ledger is kept by every transition. *)
Lemma ledger_step a s s' : ledger s → step a s = Next s' → ledger s'.
Proof.
  intros L Hs.
  pose proof (ledger_deq_once s L) as Hdq.
  destruct a as [c op|[w|c]|c|c w|w]; step_inv Hs.
  all: try match goal with op : api_call |- _ => destruct op end.
  all: split; simpl; intros; log_simpl.
  all: split_lookups.
  all: simpl in *; simplify_eq.
  all: try done.
  all: try match goal with
           | H : osDequeue _ = Some _ |- _ => apply osDequeue_Some in H
           end.
  all: try (by destruct L).
  all: use_ledger L.
  all: try (by eauto using led_alloc, led_exec, led_freed, led_freed_ran, led_teardown, led_ran).
  all: try (by eapply (led_pending_one s L); eauto).
  all: rewrite ?elem_of_snoc in *.
  all: destruct_or?; simplify_eq.
  all: try worker_field L.
  all: destruct_and?.
  all: try (by intuition (simplify_eq; eauto using led_alloc, led_exec, led_freed, led_freed_ran, led_teardown, led_ran)).
  all: try (apply NoDup_snoc; [by destruct L|]).
  all: try match goal with
       | Hq : taskQueue (pool ?s) = ?t :: ?l |- enqueued (trace ?s) = (_ ++ [_]) ++ _ =>
           by rewrite (led_fifo s L), Hq, <- app_assoc
       | |- enqueued (trace ?s) ++ [_] = _ ++ osEnqueue _ _ =>
           unfold osEnqueue; by rewrite (led_fifo s L), app_assoc
       | Hq : taskQueue (pool ?s) = ?t :: ?l |- ?t ∉ executed (trace _) =>
           eapply ledger_queued_exec; [done|rewrite Hq; left]
       | Hq : taskQueue (pool ?s) = ?t :: ?l |- ?t ∉ (freed (trace _)).*2 =>
           eapply ledger_queued_free; [done|rewrite Hq; left]
       | Hq : taskQueue (pool ?s) = ?t :: ?l |- _ ∧ ?t ∉ (freed (trace _)).*2 =>
           split; [by right|eapply ledger_queued_free; [done|rewrite Hq; left]]
       | He : ?t ∈ executed (trace ?s) |- ∃ w, (Worker w, ?t) ∈ _ ++ [_] =>
           let w0 := fresh "w" in
           destruct (led_exec s L t He) as [w0 ?]; exists w0; rewrite elem_of_snoc; by left
       | Hw : workers ?s !! ?w = Some _
         |- (∃ pc, <[?w:=?x]> (workers ?s) !! ?w = Some pc ∧ _) ∨ _ =>
           left; exists x; by rewrite list_lookup_insert_eq by (by eapply lookup_lt_Some)
       | |- ¬ (_ ∨ _) => intros [?|?]; [done|subst; owner_clash L]
       | |- _ ∧ ¬ (_ ∨ _) => split; [done|intros [?|?]; [done|subst; owner_clash L]]
       end.
  all: try assumption.
  all: try lia.
  all: try match goal with
       | He : ?t ∈ enqueued (trace ?s) |- ?t < length (_ ++ _) =>
           pose proof (led_alloc s L _ He); rewrite length_app; lia
       | |- length ?l < length (?l ++ _) ∧ _ =>
           split; [rewrite length_app; simpl; lia|intros ?%(led_alloc _ L); lia]
       | |- _ < length (_ ++ _) ∧ _ => split; [rewrite length_app; lia|done]
       | Hl : workers ?s !! ?w0 = Some ?pc0
         |- (∃ pc, <[?w:=_]> (workers ?s) !! ?w0 = Some pc ∧ _) ∨ _ =>
           destruct (decide (w0 = w)) as [->|?];
           [ simplify_eq; simpl in *; simplify_eq; right; split; [done|by right]
           | left; eapply held_keep; [exact Hl|done|done] ]
       | Hc : clients ?s !! ?c = Some (IEnqueue ?t),
         Hc0 : clients ?s !! ?c0 = Some ?pc, Hne : ?c0 ≠ ?c
         |- _ ∧ ¬ (_ ∨ _) =>
           split; [done|intros [?|?]; [done|subst]];
           destruct Hne; by eapply (led_pending_one s L c0 c pc (IEnqueue t))
       | Hq : taskQueue (pool ?s) = ?n :: _ |- _ ∧ ¬ (_ ∨ _ = ?n) =>
           split; [by left|intros [?|?]; [done|subst]];
           eapply (ledger_queued s n L); [rewrite Hq; left|by eapply elem_of_snd]
       end.
Qed.

Lemma ledger_fresh n j m : ledger (fresh_system n j m).
Proof.
  split; simpl; intros;
    repeat match goal with
    | H : replicate _ _ !! _ = Some _ |- _ => apply lookup_replicate in H; destruct H
    | H : _ ∈ [] |- _ => by apply elem_of_nil in H
    end; simplify_eq; try done; apply NoDup_nil_2.
Qed.

Lemma ledger_run n e m s0 sched s :
  initial n e m = Some s0 → run sched s0 = Next s → ledger s.
Proof.
  intros H0 Hrun. apply initial_fresh in H0 as ->.
  eapply run_preserves; [|apply ledger_fresh|done].
  intros. by eapply ledger_step.
Qed.


(** ** Single calls *)

Ltac lookup_same :=
  rewrite ?list_lookup_insert_eq
    by (rewrite ?length_insert; eapply lookup_lt_Some; eassumption).

Ltac unfold_step :=
  unfold step_worker, step_client, fail_client, signal_client, call_client,
    spurious, lock, unlock, released, queue_live, owned_by,
    ret_insert, ret_destroy.

Lemma lookup_set_same {A} (l : list A) (i : nat) (x y : A) :
  l !! i = Some y → <[i:=x]> l !! i = Some x.
Proof. intros H. by eapply list_lookup_insert_eq, lookup_lt_Some. Qed.

Lemma idle_stuck c a s :
  own_action c a → clients s !! c = Some CIdle → step a s = Stuck ∨ step a s = Undef.
Proof.
  destruct a as [|[|]| | |]; simpl; try done; intros -> Hc; unfold_step; rewrite Hc; auto.
Qed.

(** C10: tpRoutine called with a null pool returns at once, with a null
    result: the thread is done, and the pool, its mutex, its queue, the
    other threads, the heap and the log are as before. *)
Theorem C10_routine_null_pool s w :
  workers s !! w = Some (WEntry NULL) →
  ∃ s', step (Step (Worker w)) s = Next s' ∧
        workers s' = <[w := WDone]> (workers s) ∧
        exit_value <$> workers s' !! w = Some (Some NULL) ∧
        pool s' = pool s ∧ life s' = life s ∧ clients s' = clients s ∧
        nodes s' = nodes s ∧ trace s' = trace s.
Proof.
  intros Hw. simpl. unfold step_worker. rewrite Hw. eexists. split; [done|].
  simpl. split; [done|]. split; [|done].
  by erewrite lookup_set_same.
Qed.

Lemma C10_routine_null_pool_witness :
  ∃ s', step (Step (Worker 0)) (mk_system (mk_pool [4] false false 1 None) Live [WEntry NULL] [] [] []) = Next s' ∧
        workers s' = [WDone] ∧
        exit_value <$> workers s' !! 0 = Some (Some NULL) ∧
        pool s' = mk_pool [4] false false 1 None ∧ life s' = Live ∧ clients s' = [] ∧
        nodes s' = [] ∧ trace s' = [].
Proof.
  apply (C10_routine_null_pool (mk_system (mk_pool [4] false false 1 None) Live [WEntry NULL] [] [] []) 0).
  reflexivity.
Defined.

(** While the memory of the pool is still allocated, tpDestroy on a pool
    whose isShuttingDown is already true returns at line 145: the pool
    record, the lifetime of its resources, the worker threads (none is
    joined), the clients and the heap are as before; the log gains the
    call and its return, and nothing else. *)
Lemma destroy_again_while_live s c d :
  clients s !! c = Some CIdle →
  life s ≠ Released →
  isShuttingDown (pool s) = true →
  ∃ s', run [Call c (Destroy POOL d); Step (Client c)] s = Next s' ∧
        pool s' = pool s ∧ life s' = life s ∧ workers s' = workers s ∧
        clients s' = clients s ∧ nodes s' = nodes s ∧
        trace s' = trace s ++ [EvCall c (Destroy POOL d); EvDestroyRet c].
Proof.
  intros Hc Hl Hs. simpl. unfold_step. rewrite Hc. simpl. lookup_same.
  rewrite Hs. destruct (life s) eqn:E; try done.
  all: eexists; split; [done|]; simpl; rewrite E.
  all: rewrite list_insert_insert_eq, list_insert_id by done.
  all: by rewrite <- app_assoc.
Qed.

(** Once free(threadPool) has run, the handle dangles: line 144 reads
    released memory. *)
Lemma destroy_after_release s c d :
  clients s !! c = Some CIdle → life s = Released →
  run [Call c (Destroy POOL d); Step (Client c)] s = Undef.
Proof.
  intros Hc Hl. simpl. unfold_step. rewrite Hc. simpl. lookup_same.
  by rewrite Hl.
Qed.

(** C5, at a second call after the first has returned: tpDestroy(pool, 1)
    runs to its return on a pool of one worker; isShuttingDown is true
    and the pool has been released by line 280.  tpDestroy called again
    on that handle is not a no-op: its first statement, the guard of
    line 144, reads the released pool, which is undefined.  This is so
    for every call of tpDestroy on a released pool. *)
Theorem C5_second_destroy_reads_freed_pool :
  (∃ s, run whole_destroy (fresh_system 1 false 1) = Next s ∧
        last (trace s) = Some (EvDestroyRet 0) ∧
        isShuttingDown (pool s) = true ∧
        life s = Released ∧ clients s = [CIdle] ∧
        run [Call 0 (Destroy POOL 1); Step (Client 0)] s = Undef) ∧
  (∀ s c d, clients s !! c = Some CIdle → life s = Released →
            run [Call c (Destroy POOL d); Step (Client c)] s = Undef).
Proof.
  split; [|apply destroy_after_release].
  eexists. split; [vm_compute; reflexivity|].
  split; [reflexivity|]. split; [reflexivity|]. split; [reflexivity|].
  split; [reflexivity|]. vm_compute. reflexivity.
Qed.

(** tpInsertTask on a live pool that is shutting down, or with a null
    function, returns through line 192 and changes nothing. *)
Lemma insert_rejected s c f p :
  clients s !! c = Some CIdle →
  life s ≠ Released →
  isShuttingDown (pool s) = true ∨ f = None →
  ∃ s', run [Call c (Insert POOL f p); Step (Client c)] s = Next s' ∧
        ret_value RetBadArgs = TASK_INSERT_FAILURE ∧
        pool s' = pool s ∧ life s' = life s ∧ workers s' = workers s ∧
        clients s' = clients s ∧ nodes s' = nodes s ∧
        trace s' = trace s ++ [EvCall c (Insert POOL f p); EvInsertRet c RetBadArgs].
Proof.
  intros Hc Hl Hs. simpl. unfold_step. rewrite Hc. simpl. lookup_same.
  assert (released s = false) as Hr by (unfold released; by destruct (life s)).
  unfold released in Hr. rewrite Hr.
  assert (∀ s1, s1 = emit [EvInsertRet c RetBadArgs]
                  (set_client c CIdle (emit [EvCall c (Insert POOL f p)]
                     (set_client c (ICheck POOL f p) s))) →
          ∃ s', Next s1 = Next s' ∧
        ret_value RetBadArgs = TASK_INSERT_FAILURE ∧
        pool s' = pool s ∧ life s' = life s ∧ workers s' = workers s ∧
        clients s' = clients s ∧ nodes s' = nodes s ∧
        trace s' = trace s ++ [EvCall c (Insert POOL f p); EvInsertRet c RetBadArgs]) as Hfin.
  { intros s1 ->. eexists. split; [done|]. simpl.
    rewrite list_insert_insert_eq, list_insert_id by done.
    by rewrite <- app_assoc. }
  destruct (isShuttingDown (pool s)) eqn:E; [by apply Hfin|].
  destruct Hs as [?| ->]; [done|]. by apply Hfin.
Qed.

(** Line 190 reads threadPool->isShuttingDown before it compares
    threadPool with NULL. *)
Lemma insert_null_pool s c f p :
  clients s !! c = Some CIdle →
  run [Call c (Insert NULL f p); Step (Client c)] s = Undef.
Proof.
  intros Hc. simpl. unfold_step. rewrite Hc. simpl. by lookup_same.
Qed.

(** C6, at the null pool: tpInsertTask(NULL, f, p) does not return the
    failure code; its first statement dereferences the null pointer. *)
Theorem C6_insert_null_pool_undefined :
  run [Call 0 (Insert NULL (Some 7) 9); Step (Client 0)] (fresh_system 1 false 1) = Undef.
Proof. apply insert_null_pool. reflexivity. Qed.

(** C2: what a worker does when its wait loop exits.  Shutting down,
    draining, queue empty: it unlocks and terminates.  Shutting down, not
    draining: it unlocks and terminates, the queue untouched.  Otherwise:
    it dequeues the head of the queue, unlocks, and calls the function of
    that node on its argument. *)
Theorem C2_shutdown_policy s w :
  workers s !! w = Some WGuard →
  mutexEmptyQ (pool s) = Some (Worker w) →
  life s = Live →
  (∀ t, t ∈ taskQueue (pool s) → is_Some (nodes s !! t)) →
  wait_guard (osIsQueueEmpty (taskQueue (pool s))) (isShuttingDown (pool s)) = false →
  (isShuttingDown (pool s) = true ∧ shouldWaitForTasks (pool s) = true ∧
   taskQueue (pool s) = [] →
   ∃ s', run [Step (Worker w); Step (Worker w); Step (Worker w)] s = Next s' ∧
         workers s' !! w = Some WDone ∧ mutexEmptyQ (pool s') = None ∧
         taskQueue (pool s') = taskQueue (pool s) ∧ trace s' = trace s) ∧
  (isShuttingDown (pool s) = true ∧ shouldWaitForTasks (pool s) = false →
   ∃ s', run [Step (Worker w); Step (Worker w); Step (Worker w)] s = Next s' ∧
         workers s' !! w = Some WDone ∧ mutexEmptyQ (pool s') = None ∧
         taskQueue (pool s') = taskQueue (pool s) ∧ trace s' = trace s) ∧
  (¬ (isShuttingDown (pool s) = true ∧ shouldWaitForTasks (pool s) = true ∧
      taskQueue (pool s) = []) →
   ¬ (isShuttingDown (pool s) = true ∧ shouldWaitForTasks (pool s) = false) →
   ∃ t q nd s',
     taskQueue (pool s) = t :: q ∧ nodes s !! t = Some nd ∧
     run [Step (Worker w); Step (Worker w); Step (Worker w); Step (Worker w);
          Step (Worker w)] s = Next s' ∧
     workers s' !! w = Some (WFree t) ∧ mutexEmptyQ (pool s') = None ∧
     taskQueue (pool s') = q ∧
     trace s' = trace s ++ [EvDequeue (Worker w) t;
                            EvExec w t (computeFunc nd) (parameters nd)]).
Proof.
  intros Hw Ho Hl Hn Hg.
  pose proof (lookup_lt_Some _ _ _ Hw) as Hlt.
  destruct s as [[q sh dr n o] lf ws cs nds tr]; simpl in *; subst.
  split; [|split].
  - intros (-> & -> & ->). unfold_step. simpl. rewrite Hw. simpl.
    lookup_same. simpl. lookup_same. simpl.
    rewrite Nat.eqb_refl.
    eexists. split; [done|]. simpl. by lookup_same.
  - intros (-> & ->). unfold_step. simpl. rewrite Hw. simpl.
    destruct q; simpl in *.
    all: lookup_same; simpl; lookup_same; simpl.
    all: rewrite Nat.eqb_refl.
    all: eexists; (split; [done|]); simpl; by lookup_same.
  - intros H1 H2.
    destruct q as [|t q].
    { destruct sh; [|done]. destruct dr; [destruct H1|destruct H2]; done. }
    destruct (Hn t) as [nd Hnd]; [left|].
    exists t, q, nd.
    assert (shutdown_policy sh dr false = TakeTask) as Hp.
    { destruct sh, dr; try done. destruct H2; done. }
    unfold_step. simpl. rewrite Hw. simpl.
    lookup_same. simpl. rewrite Hp. simpl. lookup_same. simpl.
    lookup_same. simpl. rewrite Nat.eqb_refl. simpl.
    lookup_same. simpl. rewrite Hnd.
    eexists. split; [done|]. split; [done|]. split; [done|]. simpl.
    lookup_same. by rewrite <- app_assoc.
Qed.

Lemma C2_shutdown_policy_witness :
  ∃ t q nd s',
    taskQueue (mk_pool [0; 1] true true 1 (Some (Worker 0))) = t :: q ∧
    [mk_task_node 7 9; mk_task_node 7 10] !! t = Some nd ∧
    run [Step (Worker 0); Step (Worker 0); Step (Worker 0); Step (Worker 0);
         Step (Worker 0)]
      (mk_system (mk_pool [0; 1] true true 1 (Some (Worker 0))) Live [WGuard] [CIdle]
         [mk_task_node 7 9; mk_task_node 7 10] []) = Next s' ∧
    workers s' !! 0 = Some (WFree t) ∧ mutexEmptyQ (pool s') = None ∧
    taskQueue (pool s') = q ∧
    trace s' = [] ++ [EvDequeue (Worker 0) t;
                      EvExec 0 t (computeFunc nd) (parameters nd)].
Proof.
  destruct (C2_shutdown_policy
              (mk_system (mk_pool [0; 1] true true 1 (Some (Worker 0))) Live [WGuard]
                 [CIdle] [mk_task_node 7 9; mk_task_node 7 10] []) 0)
    as (_ & _ & H).
  - reflexivity.
  - reflexivity.
  - reflexivity.
  - simpl. intros t Ht.
    apply elem_of_cons in Ht as [->|Ht]; [by eexists|].
    apply list_elem_of_singleton in Ht as ->. by eexists.
  - reflexivity.
  - apply H; simpl.
    + intros (_ & _ & E). discriminate E.
    + intros (_ & E). discriminate E.
Defined.

(** ** Failed submissions *)

Ltac trace_ext :=
  first [ exists []; split; [by rewrite app_nil_r|]
        | eexists; split; [simpl; reflexivity|] ].

Ltac find_pc Hc :=
  eexists; split;
  [ simpl;
    first [ exact Hc
          | by eapply lookup_set_same
          | rewrite list_lookup_insert_ne by done; exact Hc ] |].

Ltac ev_cases :=
  repeat match goal with
  | H : _ ∈ [] |- _ => by apply elem_of_nil in H
  | H : _ ∈ _ ++ _ |- _ => apply elem_of_app in H as [H|H]
  | H : _ ∈ _ :: _ |- _ => apply elem_of_cons in H as [H|H]; simplify_eq
  end.

(** One transition that is not a new call of client [c], seen from [c]. *)
Lemma possible_step c a s s1 pc :
  not_call_of c a → step a s = Next s1 → clients s !! c = Some pc →
  ∃ e1, trace s1 = trace s ++ e1 ∧
  ∃ pc1, clients s1 !! c = Some pc1 ∧
         ∀ l, possible c pc1 l → possible c pc (e1 ++ l).
Proof.
  intros Ha Hs Hc.
  destruct a as [c1 op|[w|c1]|c1|c1 w|w]; simpl in Ha.
  all: try (destruct (decide (c1 = c)) as [->|Hne]).
  all: step_inv Hs.
  all: unfold ret_insert, ret_destroy.
  all: trace_ext; find_pc Hc.
  all: intros evl [Hp1 Hp2];
    (split; [intros r0 Hr0 | intros Hm tq; unfold not; intros Htq]).
  all: simpl in *; ev_cases.
  all: try done.
  all: try (solve [eapply Hp2; [done|eassumption]]).
  all: try (destruct (Hp1 _ Hr0) as [Hre Hen]).
  all: split;
    [ simpl in *; unfold early_return in *; intuition congruence
    | intros He tq; unfold not; intros Htq; simpl in *; ev_cases;
      first [ solve [eapply Hen; [done|eassumption]]
            | solve [eapply Hp2; [done|eassumption]]
            | simpl in *; unfold early_return in *; intuition congruence ] ].
Qed.

Lemma possible_nil c pc : possible c pc [].
Proof. split; [intros r Hr|intros _ t Ht]; by ev_cases. Qed.

Lemma possible_run c acts s s' pc :
  Forall (not_call_of c) acts → run acts s = Next s' → clients s !! c = Some pc →
  ∃ evs, trace s' = trace s ++ evs ∧ possible c pc evs.
Proof.
  revert s pc. induction acts as [|a acts IH]; simpl; intros s pc Hn Hrun Hc.
  - simplify_eq. exists []. split; [by rewrite app_nil_r|apply possible_nil].
  - apply Forall_cons in Hn as [Ha Hn].
    destruct (step a s) as [s1| |] eqn:Hs; try done.
    destruct (possible_step c a s s1 pc Ha Hs Hc) as (e1 & He1 & pc1 & Hc1 & Hp).
    destruct (IH s1 pc1 Hn Hrun Hc1) as (evs & Hevs & Hpos).
    exists (e1 ++ evs). split; [|by apply Hp].
    by rewrite Hevs, He1, <- app_assoc.
Qed.

Lemma app_same_nil {A} (l ex : list A) : l = l ++ ex → ex = [].
Proof.
  intros H. rewrite <- (app_nil_r l) in H at 1. by apply app_inv_head in H.
Qed.

(** A client that makes no new call stays idle once it is idle, and is
    idle when its call has returned. *)
Lemma idle_step c a s s1 :
  not_call_of c a → step a s = Next s1 → clients s !! c = Some CIdle →
  clients s1 !! c = Some CIdle.
Proof.
  intros Ha Hs Hc.
  destruct a as [c1 op|[w|c1]|c1|c1 w|w]; simpl in Ha.
  all: try (destruct (decide (c1 = c)) as [->|Hne]).
  all: step_inv Hs.
  all: unfold ret_insert, ret_destroy; simpl.
  all: by rewrite ?list_lookup_insert_ne by done.
Qed.

Lemma idle_stays c acts s s' :
  Forall (not_call_of c) acts → run acts s = Next s' →
  clients s !! c = Some CIdle → clients s' !! c = Some CIdle.
Proof.
  revert s. induction acts as [|a acts IH]; simpl; intros s Hn Hrun Hc.
  - by simplify_eq.
  - apply Forall_cons in Hn as [Ha Hn].
    destruct (step a s) as [s1| |] eqn:Hs; try done.
    eauto using idle_step.
Qed.

Lemma ret_step c r a s s1 e1 :
  step a s = Next s1 → trace s1 = trace s ++ e1 → EvInsertRet c r ∈ e1 →
  clients s1 !! c = Some CIdle.
Proof.
  intros Hs Ht Hin.
  destruct a as [c1 op|[w|c1]|c1|c1 w|w].
  all: step_inv Hs.
  all: unfold ret_insert, ret_destroy in *; simpl in *.
  all: first [ apply app_inv_head in Ht | apply app_same_nil in Ht ].
  all: subst e1; ev_cases.
  all: by eapply lookup_set_same.
Qed.

Lemma ret_idle c r acts s s' evs :
  Forall (not_call_of c) acts → run acts s = Next s' →
  trace s' = trace s ++ evs → EvInsertRet c r ∈ evs →
  clients s' !! c = Some CIdle.
Proof.
  revert s evs.
  induction acts as [|a acts IH]; simpl; intros s evs Hn Hrun Ht Hin.
  - simplify_eq. apply app_same_nil in Ht. subst. by ev_cases.
  - apply Forall_cons in Hn as [Ha Hn].
    destruct (step a s) as [s1| |] eqn:Hs; try done.
    destruct (trace_grows _ _ _ Hs) as (e1 & He1).
    destruct (trace_grows_run _ _ _ Hrun) as (e2 & He2).
    pose proof Ht as Ht'.
    rewrite He2, He1, <- app_assoc in Ht'. apply app_inv_head in Ht'. subst evs.
    apply elem_of_app in Hin as [Hin|Hin].
    + eapply idle_stays; [done..|]. by eapply ret_step.
    + by eapply IH.
Qed.

(** What one statement of a call of tpInsertTask by [c] changes, when the
    call returns through line 192, 199 or 205: nothing but the client's
    own position and, at line 197, the heap. *)
Lemma own_step_frame c x sa sb :
  own_action c x → step x sa = Next sb →
  ∃ e1 pc1, trace sb = trace sa ++ e1 ∧ clients sb !! c = Some pc1 ∧
    ∀ r, early_return r → EvInsertRet c r ∈ e1 ∨ reach pc1 r →
         untouched c sa sb ∧ (r ≠ RetLockErr → nodes sb = nodes sa) ∧
         (before_enqueue pc1 = true ∨ pc1 = CIdle).
Proof.
  intros Hx Hs.
  destruct x as [c1 op|[w|c1]|c1|c1 w|w]; simpl in Hx; try done; subst c1.
  all: step_inv Hs.
  all: unfold ret_insert, ret_destroy.
  all: eexists _, _; (split; [first [by rewrite app_nil_r | simpl; reflexivity]|]).
  all: (split; [simpl; by eapply lookup_set_same|]).
  all: intros r He [Hin|Hre]; simpl in *; ev_cases.
  all: unfold early_return in *; try (exfalso; intuition congruence).
  all: unfold untouched; simpl.
  all: repeat split; auto.
  all: try (intros c' Hc'; by rewrite list_lookup_insert_ne).
  all: try (intros; exfalso; intuition congruence).
Qed.

(** C3: a call of tpInsertTask that returns the failure code through
    line 192 (pool shutting down, callable null), line 199 (no task node)
    or line 205 (lock error), whatever the other threads do while it
    runs.  The call enqueues nothing.  Each of its statements leaves the
    pool record (queue, flags, mutex), the lifetime of the pool, the
    worker threads (none is woken) and the other clients as they were,
    and leaves the client before line 209 or returned; the heap is as it
    was too, unless the return is that of line 205.  The client is idle
    at the end. *)
Theorem C3_failed_insert_leaves_pool s c h f p acts s' evs r :
  Forall (not_call_of c) acts →
  run (Call c (Insert h f p) :: acts) s = Next s' →
  trace s' = trace s ++ EvCall c (Insert h f p) :: evs →
  EvInsertRet c r ∈ evs →
  early_return r →
  ret_value r = TASK_INSERT_FAILURE ∧
  clients s' !! c = Some CIdle ∧
  (∀ t, EvEnqueue c t ∉ evs) ∧
  ∀ a1 x a2 sa sb,
    Call c (Insert h f p) :: acts = a1 ++ x :: a2 →
    x = Call c (Insert h f p) ∨ own_action c x →
    run a1 s = Next sa → step x sa = Next sb →
    untouched c sa sb ∧ (r ≠ RetLockErr → nodes sb = nodes sa) ∧
    ∃ pc, clients sb !! c = Some pc ∧ (before_enqueue pc = true ∨ pc = CIdle).
Proof.
  intros Hn Hrun Ht Hin Hr.
  split; [by destruct Hr as [->|[->| ->]]|].
  simpl in Hrun. destruct (call_client c (Insert h f p) s) as [s1| |] eqn:Hcall; try done.
  assert (clients s !! c = Some CIdle ∧
          s1 = emit [EvCall c (Insert h f p)] (set_client c (ICheck h f p) s))
    as [Hc ->].
  { unfold call_client in Hcall. destruct (clients s !! c) as [[]|]; by simplify_eq. }
  set (s1 := emit [EvCall c (Insert h f p)] (set_client c (ICheck h f p) s)) in *.
  assert (clients s1 !! c = Some (ICheck h f p)) as Hc1
    by (simpl; by eapply lookup_set_same).
  assert (trace s' = trace s1 ++ evs) as Ht1
    by (simpl; by rewrite <- app_assoc).
  destruct (possible_run c acts s1 s' _ Hn Hrun Hc1) as (evs' & Hev & Hpos).
  rewrite Ht1 in Hev. apply app_inv_head in Hev. subst evs'.
  split; [by eapply ret_idle|].
  split; [by apply (proj1 Hpos r Hin)|].
  intros a1 x a2 sa sb Hsplit Hx Ha1 Hstep.
  destruct a1 as [|a a1]; simpl in Hsplit; simplify_eq.
  - simpl in Ha1. simplify_eq.
    destruct Hx as [_|Hx]; [|done].
    simpl in Hstep. rewrite Hcall in Hstep. simplify_eq.
    split; [|split; [done|]].
    + repeat split. intros c' Hc'. simpl. by rewrite list_lookup_insert_ne.
    + exists (ICheck h f p). split; [done|by left].
  - apply Forall_app in Hn as [Hn1 Hn2]. apply Forall_cons in Hn2 as [Hnx Hn2].
    destruct Hx as [->|Hx]; [by destruct Hnx|].
    simpl in Ha1. rewrite Hcall in Ha1.
    rewrite run_app, Ha1 in Hrun. simpl in Hrun. rewrite Hstep in Hrun.
    destruct (own_step_frame c x sa sb Hx Hstep) as (e1 & pc1 & He1 & Hcb & Hfr).
    destruct (trace_grows_run _ _ _ Ha1) as (ev1 & Hev1).
    destruct (possible_run c a2 sb s' _ Hn2 Hrun Hcb) as (ev2 & Hev2 & Hpos2).
    assert (evs = ev1 ++ e1 ++ ev2) as ->.
    { rewrite Hev2, He1, Hev1, <- !app_assoc in Ht1. by apply app_inv_head in Ht1. }
    apply elem_of_app in Hin as [Hin|Hin].
    { pose proof (ret_idle c r a1 s1 sa ev1 Hn1 Ha1 Hev1 Hin) as Hidle.
      destruct (idle_stuck c x sa Hx Hidle) as [E|E]; rewrite E in Hstep; done. }
    destruct (Hfr r Hr) as (Hu & Hnd & Hpc).
    { apply elem_of_app in Hin as [Hin|Hin]; [by left|right].
      by apply (proj1 Hpos2 r Hin). }
    split; [done|]. split; [done|]. by exists pc1.
Qed.

Lemma C3_failed_insert_leaves_pool_witness :
  ∃ s' evs,
    run (Call 0 (Insert POOL (Some 7) 9) :: failing_submit) (fresh_system 1 false 2)
    = Next s' ∧
    trace s' = trace (fresh_system 1 false 2) ++ EvCall 0 (Insert POOL (Some 7) 9) :: evs ∧
    EvInsertRet 0 RetNoTask ∈ evs ∧
    taskQueue (pool s') = [] ∧ dequeued (trace s') = [(Worker 0, 0)] ∧
    ret_value RetNoTask = TASK_INSERT_FAILURE ∧
    clients s' !! 0 = Some CIdle ∧
    (∀ t, EvEnqueue 0 t ∉ evs) ∧
    ∀ a1 x a2 sa sb,
      Call 0 (Insert POOL (Some 7) 9) :: failing_submit = a1 ++ x :: a2 →
      x = Call 0 (Insert POOL (Some 7) 9) ∨ own_action 0 x →
      run a1 (fresh_system 1 false 2) = Next sa → step x sa = Next sb →
      untouched 0 sa sb ∧ (RetNoTask ≠ RetLockErr → nodes sb = nodes sa) ∧
      ∃ pc, clients sb !! 0 = Some pc ∧ (before_enqueue pc = true ∨ pc = CIdle).
Proof.
  do 2 eexists.
  split; [vm_compute; reflexivity|].
  split; [vm_compute; reflexivity|].
  split; [rewrite !elem_of_cons; tauto|].
  split; [reflexivity|]. split; [reflexivity|].
  apply (C3_failed_insert_leaves_pool (fresh_system 1 false 2) 0 POOL (Some 7) 9
           failing_submit).
  - repeat constructor. simpl. lia.
  - vm_compute. reflexivity.
  - vm_compute. reflexivity.
  - rewrite !elem_of_cons. tauto.
  - right. left. reflexivity.
Defined.
(** ** tpCreate *)

Lemma start_threads_spec e k i :
  fst (start_threads e k i) = forallb (malloc_thread e) (seq i k).
Proof.
  revert i. induction k as [|k IH]; intros i; simpl; [done|].
  destruct (malloc_thread e i); simpl; [|done].
  specialize (IH (S i)). destruct (start_threads e k (S i)). simpl in *. done.
Qed.

(** tpCreate returns the pool exactly when every allocation succeeds;
    otherwise it returns NULL. *)
Lemma tpCreate_handle n e :
  handle (tpCreate n e) = if all_allocated n e then POOL else NULL.
Proof.
  unfold tpCreate, all_allocated.
  destruct (malloc_pool e), (malloc_array e), (malloc_mutex e), (malloc_cv e),
    (create_queue e); simpl; try done.
  rewrite <- start_threads_spec.
  destruct (start_threads e (Z.to_nat n) 0) as [[] ?]; done.
Qed.

(** A failure before the loop of line 125 leaves no thread. *)
Lemma tpCreate_early_failure n e :
  malloc_pool e && malloc_array e && malloc_mutex e && malloc_cv e &&
  create_queue e = false →
  tpCreate n e = mk_create_result NULL [] None.
Proof.
  unfold tpCreate.
  destruct (malloc_pool e), (malloc_array e), (malloc_mutex e), (malloc_cv e),
    (create_queue e); simpl; done.
Qed.

(** C4, at a failing allocation: tpCreate(2) whose second thread handle
    cannot be allocated returns NULL (line 128) with the first worker
    started (line 130); that worker runs tpRoutine on the abandoned pool
    and blocks in pthread_cond_wait. *)
Theorem C4_failed_create_leaves_worker :
  let e := mk_create_env true true true true true (λ i, i <? 1) false in
  tpCreate 2 e = mk_create_result NULL [WEntry POOL] (Some (mk_pool [] false false 2 None)) ∧
  ∃ s', run [Step (Worker 0); Step (Worker 0); Step (Worker 0)]
          (mk_system (mk_pool [] false false 2 None) Live (threads (tpCreate 2 e)) [] [] [])
        = Next s' ∧ workers s' = [WWait].
Proof.
  split; [vm_compute; reflexivity|].
  eexists. split; vm_compute; reflexivity.
Qed.

(** ** First in, first out *)

Lemma NoDup_split_inj {A} (x1 x2 y1 y2 : list A) (b : A) :
  NoDup (x1 ++ b :: x2) → x1 ++ b :: x2 = y1 ++ b :: y2 → x1 = y1 ∧ x2 = y2.
Proof.
  revert y1. induction x1 as [|a x1 IH]; intros y1 Hnd Heq.
  - destruct y1 as [|c y1]; simpl in *; [by simplify_eq|].
    simplify_eq. apply NoDup_cons in Hnd as [Hb _].
    destruct Hb. apply elem_of_app. right. left.
  - destruct y1 as [|c y1]; simpl in *; simplify_eq.
    + apply NoDup_cons in Hnd as [Hb _].
      destruct Hb. apply elem_of_app. right. left.
    + apply NoDup_cons in Hnd as [_ Hnd].
      destruct (IH y1 Hnd) as [-> ->]; done.
Qed.

Lemma precedes_prefix {A} (d q : list A) (a b : A) :
  NoDup (d ++ q) → precedes (d ++ q) a b → b ∈ d → precedes d a b.
Proof.
  intros Hnd (l1 & l2 & l3 & Heq) Hb.
  apply list_elem_of_split in Hb as (d1 & d2 & ->).
  assert (d1 = l1 ++ a :: l2 ∧ d2 ++ q = l3) as [-> _].
  { rewrite <- app_assoc in Hnd, Heq. simpl in Hnd, Heq.
    apply (NoDup_split_inj d1 (d2 ++ q) (l1 ++ a :: l2) l3 b); [done|].
    rewrite Heq. by rewrite <- app_assoc. }
  exists l1, l2, d2. by rewrite <- app_assoc.
Qed.

Lemma precedes_snd {A B} (l : list (A * B)) (a b : B) :
  precedes l.*2 a b → ∃ x y, precedes l (x, a) (y, b).
Proof.
  intros (l1 & l2 & l3 & Heq).
  apply fmap_app_inv in Heq as (k1 & k' & -> & Heq & ->).
  symmetry in Heq.
  apply fmap_cons_inv in Heq as ([x a'] & k'' & Ha & Heq & ->).
  simpl in Ha. subst a'. symmetry in Heq.
  apply fmap_app_inv in Heq as (k2 & k3' & -> & Heq & ->).
  symmetry in Heq.
  apply fmap_cons_inv in Heq as ([y b'] & k3 & Hb & -> & ->).
  simpl in Hb. subst b'.
  exists x, y, k1, k2, k3. done.
Qed.

Lemma precedes_enqueued t1 t2 t3 e1 e2 cA cB A B :
  enqueued [e1] = [] → enqueued [e2] = [] →
  EvEnqueue cA A ∈ t1 → EvEnqueue cB B ∈ t3 →
  precedes (enqueued (t1 ++ e1 :: t2 ++ e2 :: t3)) A B.
Proof.
  intros H1 H2 HA HB.
  apply list_elem_of_split in HA as (a1 & a2 & ->).
  apply list_elem_of_split in HB as (b1 & b2 & ->).
  exists (enqueued a1), (enqueued a2 ++ enqueued t2 ++ enqueued b1), (enqueued b2).
  rewrite !enqueued_app.
  change (e1 :: t2 ++ e2 :: b1 ++ EvEnqueue cB B :: b2)
    with ([e1] ++ t2 ++ [e2] ++ b1 ++ [EvEnqueue cB B] ++ b2).
  change (EvEnqueue cA A :: a2) with ([EvEnqueue cA A] ++ a2).
  rewrite !enqueued_app, H1, H2. simpl.
  rewrite <- ?app_assoc. simpl. by rewrite <- ?app_assoc.
Qed.


Lemma precedes_snoc {A} (l : list A) (x a b : A) :
  precedes (l ++ [x]) a b → precedes l a b ∨ (b = x ∧ a ∈ l).
Proof.
  intros (l1 & l2 & l3 & H).
  induction l3 as [|y l3' _] using rev_ind.
  - right.
    change (l1 ++ a :: l2 ++ [b]) with (l1 ++ (a :: l2) ++ [b]) in H.
    rewrite app_assoc in H. apply app_inj_tail in H as [-> ->].
    split; [done|]. apply elem_of_app. right. left.
  - left.
    change (l1 ++ a :: l2 ++ b :: l3' ++ [y])
      with (l1 ++ (a :: l2) ++ (b :: l3') ++ [y]) in H.
    rewrite !app_assoc in H. apply app_inj_tail in H as [-> _].
    exists l1, l2, l3'. by rewrite <- !app_assoc.
Qed.

Lemma workers_first_step a s s' :
  monitor s → workers_first s → step a s = Next s' → workers_first s'.
Proof.
  intros M [Hj Ho] Hs.
  destruct M as [Mn Mw Mc Mp Md Mj Mt Mg].
  destruct a as [c op|[w|c]|c|c w|w]; step_inv Hs.
  all: split; simpl; intros; log_simpl.
  all: rewrite ?elem_of_snoc in *.
  all: split_lookups.
  all: simpl in *; simplify_eq.
  all: try (by eauto).
  all: try match goal with
       | H : precedes (_ ++ [_]) _ _ |- _ =>
           apply precedes_snoc in H as [H|[? H]]; simplify_eq; try (by eauto)
       end.
  all: destruct_or?; simplify_eq.
  all: repeat match goal with
       | H : (Client _, _) ∈ dequeued (trace _), H' : workers _ !! _ = Some _ |- _ =>
           pose_new (Hj _ _ H _ _ H')
       end.
  all: try congruence.
  all: try (use_monitor Mw Mc Mp Md Mj Mt Mg; congruence).
Qed.

Lemma workers_first_fresh n j m : workers_first (fresh_system n j m).
Proof.
  split; simpl.
  - intros c t H. by apply elem_of_nil in H.
  - intros c t w t' (l1 & l2 & l3 & H). by destruct l1.
Qed.

Lemma workers_first_run n e m s0 sched s :
  initial n e m = Some s0 → run sched s0 = Next s → workers_first s.
Proof.
  intros H0 Hrun. apply initial_fresh in H0 as ->.
  eapply (run_preserves (λ s, monitor s ∧ workers_first s)); [| |done].
  - intros a s1 s2 [M W] Hs.
    split; [by eapply monitor_step|by eapply workers_first_step].
  - split; [apply monitor_fresh|apply workers_first_fresh].
Qed.


(** C8: dequeue order is enqueue order.  The nodes dequeued so far are
    the first nodes enqueued, in that order; hence, if the submit call for
    A has returned before the submit call for B begins, and B has been
    dequeued, then A was dequeued before B, and by a worker if B was
    dequeued by a worker. *)
Theorem C8_fifo n e m s0 sched s :
  initial n e m = Some s0 →
  run sched s0 = Next s →
  (dequeued (trace s)).*2 `prefix_of` enqueued (trace s) ∧
  ∀ t1 t2 t3 cA cB r op A B whoB,
    trace s = t1 ++ EvInsertRet cA r :: t2 ++ EvCall cB op :: t3 →
    EvEnqueue cA A ∈ t1 →
    EvEnqueue cB B ∈ t3 →
    (whoB, B) ∈ dequeued (trace s) →
    ∃ whoA, precedes (dequeued (trace s)) (whoA, A) (whoB, B) ∧
            (∀ w, whoB = Worker w → ∃ w', whoA = Worker w').
Proof.
  intros H0 Hrun.
  pose proof (ledger_run _ _ _ _ _ _ H0 Hrun) as L.
  pose proof (workers_first_run _ _ _ _ _ _ H0 Hrun) as W.
  split.
  - exists (taskQueue (pool s)). apply (led_fifo s L).
  - intros t1 t2 t3 cA cB r op A B whoB Htr HA HB HdB.
    assert (precedes (enqueued (trace s)) A B) as Hp.
    { rewrite Htr. by eapply precedes_enqueued. }
    pose proof (led_once s L) as Hnd.
    rewrite (led_fifo s L) in Hp, Hnd.
    apply precedes_prefix in Hp; [|done|by eapply elem_of_snd].
    apply precedes_snd in Hp as (whoA & who & Hp).
    exists whoA.
    assert (who = whoB) as ->.
    { eapply (ledger_owner s); [done| |done].
      destruct Hp as (l1 & l2 & l3 & ->).
      rewrite !elem_of_app, !elem_of_cons, !elem_of_app, !elem_of_cons. auto 10. }
    split; [done|].
    intros w ->. destruct whoA as [w'|c]; [by exists w'|].
    by destruct (wf_order s W _ _ _ _ Hp).
Qed.

Lemma C8_fifo_witness :
  ∃ s, run two_served (fresh_system 1 false 1) = Next s ∧
       (dequeued (trace s)).*2 = [0; 1] ∧
       ∃ whoA, precedes (dequeued (trace s)) (whoA, 0) (Worker 0, 1) ∧
               (∀ w, Worker 0 = Worker w → ∃ w', whoA = Worker w').
Proof.
  eexists. split; [vm_compute; reflexivity|]. split; [reflexivity|].
  eapply (proj2 (C8_fifo 1 env_ok 1 (fresh_system 1 false 1) two_served
                   _ eq_refl ltac:(vm_compute; reflexivity))
            [EvCall 0 (Insert POOL (Some 7) 0); EvEnqueue 0 0] []
            [EvEnqueue 0 1; EvInsertRet 0 RetInserted; EvDequeue (Worker 0) 0;
             EvExec 0 0 7 0; EvFree (Worker 0) 0; EvDequeue (Worker 0) 1]
            0 0 RetInserted (Insert POOL (Some 7) 1)).
  - reflexivity.
  - repeat constructor.
  - repeat constructor.
  - simpl. repeat constructor.
Defined.

(** ** The teardown loop *)

Lemma past_join_joined s c pc :
  monitor s → (0 < numOfThreads (pool s))%Z →
  clients s !! c = Some pc → past_join pc = true →
  workers s !! 0 = Some WJoined.
Proof.
  intros M Hpos Hc Hp.
  destruct pc as [| | | | | | | | | | | | |[|i]| | | |]; simpl in Hp; try done.
  1: by eapply (mon_join s M); [done|lia].
  all: destruct (lookup_lt_is_Some_2 (workers s) 0) as [pc0 H0];
      [rewrite (mon_threads s M); lia|];
      rewrite H0; f_equal; by eapply (mon_teardown s M).
Qed.

Lemma teardown_once_step a s s' :
  monitor s → teardown_once s → step a s = Next s' → teardown_once s'.
Proof.
  intros M [Hpos H1 Hd] Hs.
  pose proof (λ c pc, past_join_joined s c pc M Hpos) as Hpj.
  destruct M as [Hn Hw Hc Hp Hdq Hj Ht Hg].
  destruct a as [c op|[w|c]|c|c w|w]; step_inv Hs.
  all: try match goal with op : api_call |- _ => destruct op end.
  all: split; simpl; intros; try done.
  all: split_lookups.
  all: simpl in *; simplify_eq.
  all: try done.
  all: try (by eauto).
  all: use_monitor Hw Hc Hp Hdq Hj Ht Hg.
  all: try congruence.
  all: try match goal with
       | |- ?q ++ [_] ≠ [] => by destruct q
       | H : osIsQueueEmpty ?q = false |- ?q ≠ [] => by destruct q
       end.
  all: try (unfold osEnqueue; by destruct (taskQueue (pool s))).
  all: try match goal with
       | Hc : clients _ !! ?c = Some (DJoin ?i), H0 : clients _ !! ?c0 = Some ?pc,
         Hp : past_join ?pc = true |- _ =>
           destruct i;
           [ first
               [ pose proof (Hpj _ _ H0 Hp); congruence
               | match goal with
                 | Hlt : (_ <? _)%Z = false |- _ =>
                     apply Z.ltb_ge in Hlt; simpl in Hlt; lia
                 end ]
           | first [ by eapply (H1 c0 c); eauto | by eapply (H1 c c0); eauto ] ]
       end.
Qed.

Lemma teardown_once_fresh n j m :
  (0 < n)%Z → teardown_once (fresh_system n j m).
Proof.
  intros Hn. split; simpl; intros; [done|..];
    repeat match goal with
    | H : replicate _ _ !! _ = Some _ |- _ => apply lookup_replicate in H; destruct H
    end; simplify_eq; done.
Qed.

Lemma teardown_once_run n e m s0 sched s :
  (0 < n)%Z → initial n e m = Some s0 → run sched s0 = Next s →
  monitor s ∧ teardown_once s.
Proof.
  intros Hn H0 Hrun. apply initial_fresh in H0 as ->.
  eapply (run_preserves (λ s, monitor s ∧ teardown_once s)); [| |done].
  - intros a s1 s2 [M T] Hs. split; [by eapply monitor_step|by eapply teardown_once_step].
  - split; [apply monitor_fresh|by apply teardown_once_fresh].
Qed.

(** C9: osDequeue is never called on an empty queue.  The exit of the
    wait loop and the branch of the shutdown policy that goes on to line
    57 together give a non-empty queue.  Whenever the next statement of a
    worker is the osDequeue of line 57, that worker holds the mutex and
    the queue is not empty; whenever the next statement of a client is the
    osDequeue of line 259, the queue is not empty. *)
Theorem C9_dequeue_nonempty n e m s0 sched s :
  (0 < n)%Z →
  initial n e m = Some s0 →
  run sched s0 = Next s →
  (∀ q sh dr, wait_guard (osIsQueueEmpty q) sh = false →
              shutdown_policy sh dr (osIsQueueEmpty q) = TakeTask →
              osIsQueueEmpty q = false) ∧
  (∀ w, workers s !! w = Some WDequeue →
        mutexEmptyQ (pool s) = Some (Worker w) ∧
        osIsQueueEmpty (taskQueue (pool s)) = false ∧
        ∃ t q, osDequeue (taskQueue (pool s)) = Some (t, q)) ∧
  (∀ c, clients s !! c = Some FDequeue →
        osIsQueueEmpty (taskQueue (pool s)) = false ∧
        ∃ t q, osDequeue (taskQueue (pool s)) = Some (t, q)).
Proof.
  intros Hn H0 Hrun.
  destruct (teardown_once_run _ _ _ _ _ _ Hn H0 Hrun) as [M T].
  split; [|split].
  - intros q sh dr Hg Hp.
    apply wait_guard_false in Hg. pose proof (policy_take _ _ _ Hp Hg).
    by destruct q.
  - intros w Hw. split; [by eapply (mon_worker s M)|].
    pose proof (mon_dequeue s M w Hw) as Hq.
    destruct (taskQueue (pool s)) as [|t q]; [done|]. simpl. eauto.
  - intros c Hc.
    pose proof (td_dequeue s T c Hc) as Hq.
    destruct (taskQueue (pool s)) as [|t q]; [done|]. simpl. eauto.
Qed.

Lemma C9_dequeue_nonempty_witness :
  ∃ s, run ready_to_dequeue (fresh_system 1 false 1) = Next s ∧
       workers s !! 0 = Some WDequeue ∧
       mutexEmptyQ (pool s) = Some (Worker 0) ∧
       osIsQueueEmpty (taskQueue (pool s)) = false ∧
       ∃ t q, osDequeue (taskQueue (pool s)) = Some (t, q).
Proof.
  eexists. split; [vm_compute; reflexivity|]. split; [reflexivity|].
  eapply (proj1 (proj2 (C9_dequeue_nonempty 1 env_ok 1 (fresh_system 1 false 1)
                          ready_to_dequeue _ eq_refl eq_refl
                          ltac:(vm_compute; reflexivity))) 0).
  reflexivity.
Defined.

(** ** The two flags *)

Lemma shut_monotone a s s' :
  step a s = Next s' → isShuttingDown (pool s) = true → isShuttingDown (pool s') = true.
Proof.
  intros Hs Ht.
  destruct a as [c op|[w|c]|c|c w|w]; step_inv Hs; simpl; done.
Qed.

Lemma shut_monotone_run sched s s' :
  run sched s = Next s' → isShuttingDown (pool s) = true → isShuttingDown (pool s') = true.
Proof.
  intros Hrun Ht. revert Hrun.
  apply (run_preserves (λ s, isShuttingDown (pool s) = true)); [|done].
  intros a s1 s2 H1 Hs. by eapply shut_monotone.
Qed.

(** The only statement that writes shouldWaitForTasks is line 153. *)
Lemma drain_written_by a s s' :
  step a s = Next s' →
  shouldWaitForTasks (pool s') ≠ shouldWaitForTasks (pool s) ∨
  drain_writes (trace s') ≠ drain_writes (trace s) →
  ∃ c d, a = Step (Client c) ∧ clients s !! c = Some (DSetDrain d) ∧
         shouldWaitForTasks (pool s') = drain_of d ∧
         drain_writes (trace s') = drain_writes (trace s) ++ [(c, drain_of d)].
Proof.
  intros Hs Hw.
  destruct a as [c op|[w|c]|c|c w|w]; step_inv Hs; simpl in *.
  all: rewrite ?drain_writes_app in *; simpl in *; rewrite ?app_nil_r in *.
  all: try (by destruct Hw).
  all: eauto 10.
Qed.

Ltac flag_simpl :=
  rewrite ?drain_writes_app, ?shut_writes_app in *;
  simpl in *; rewrite ?app_nil_r, ?fmap_app, ?last_snoc in *; simpl in *.

Lemma flags_step a s s' : monitor s → flags s → step a s = Next s' → flags s'.
Proof.
  intros M [Hp Hq Hs Hd] Hstep.
  pose proof (mon_client s M) as Hc.
  destruct a as [c op|[w|c]|c|c w|w]; step_inv Hstep.
  all: try match goal with op : api_call |- _ => destruct op end.
  all: split; simpl; intros; flag_simpl.
  all: split_lookups.
  all: simpl in *; simplify_eq.
  all: try done.
  all: try (by eauto).
  all: repeat match goal with
       | H : clients _ !! _ = Some ?pc |- _ =>
           lazymatch eval cbn in (c_critical pc) with
           | true => pose_new (Hc _ _ H eq_refl)
           end
       end.
  all: try congruence.
  all: try match goal with
       | |- _ ↔ ?l ++ [_] ≠ [] => split; intros; [by destruct l|done]
       | Hx : clients _ !! ?c = Some DSetShut |- _ ++ [?c] = _ ∨ _ => left; by apply Hp
       | |- _ ∨ ∃ c0, <[?c:=DSetShut]> _ !! c0 = Some DSetShut =>
           right; exists c; by eapply lookup_set_same
       | |- _ ++ [?c] = _ ++ [?c] =>
           f_equal; destruct Hq as [?|[c1 Hc1]]; [done|];
           pose proof (Hc _ _ Hc1 eq_refl); congruence
       | |- _ ∨ ∃ c0, <[?c:=_]> _ !! c0 = Some DSetShut =>
           destruct Hq as [?|[c1 Hc1]]; [by left|];
           right; exists c1; apply lookup_set_keep; [done|congruence]
       end.
Qed.

Lemma flags_fresh n j m : flags (fresh_system n j m).
Proof.
  split; simpl.
  - intros c Hc. apply lookup_replicate in Hc as [? _]. done.
  - by left.
  - split; [done|]. intros H. by destruct H.
  - done.
Qed.

Lemma destroyed_once_step c0 a s s' :
  sole_destroyer c0 a → destroyed_once c0 s → step a s = Next s' →
  destroyed_once c0 s'.
Proof.
  intros Ha [Ho Hb Hn] Hstep.
  destruct a as [c op|[w|c]|c|c w|w]; step_inv Hstep.
  all: try match goal with op : api_call |- _ => destruct op end.
  all: simpl in Ha; subst.
  all: repeat match goal with
       | H : clients _ !! _ = Some ?pc |- _ =>
           lazymatch eval cbn in (destroying pc) with
           | true => pose_new (Ho _ _ H eq_refl)
           end
       end; subst.
  all: repeat match goal with
       | H : clients _ !! _ = Some ?pc |- _ =>
           lazymatch eval cbn in (pre_write pc) with
           | true => pose_new (Hb _ H eq_refl)
           end
       end.
  all: split; simpl; intros; flag_simpl.
  all: split_lookups.
  all: simpl in *; simplify_eq.
  all: try done.
  all: try (by eauto).
  all: destruct_and?.
  all: try match goal with
       | H0 : clients _ !! _ = Some ?pc, H1 : pre_write ?pc = true |- _ =>
           by destruct (Hb _ H0 H1)
       end.
  all: try match goal with
       | H : drain_writes _ = [] |- _ => rewrite H; simpl
       end.
  all: try match goal with
       | |- _ ∨ _ ∧ (_ ∨ <[?c:=_]> _ !! ?c0 = _) =>
           destruct (decide (c0 = c)) as [->|?];
           [ rewrite ?list_lookup_insert_eq by (by eapply lookup_lt_Some)
           | rewrite ?list_lookup_insert_ne by done ]
       end.
  all: try (destruct Hn as [Hn|[Hn [Hn'|Hn']]]; simplify_eq;
            rewrite ?Hn, ?length_app; simpl; by eauto).
  all: right; split; [done|]; right; by eapply lookup_set_same.
Qed.

Lemma destroyed_once_fresh c0 n j m : destroyed_once c0 (fresh_system n j m).
Proof.
  split; simpl.
  - intros c pc Hc. apply lookup_replicate in Hc as [-> _]. done.
  - intros pc Hc. apply lookup_replicate in Hc as [-> _]. done.
  - by left.
Qed.

Lemma run_preserves_sched (Q : action → Prop) (P : system → Prop) :
  (∀ a s s', Q a → P s → step a s = Next s' → P s') →
  ∀ sched s s', Forall Q sched → P s → run sched s = Next s' → P s'.
Proof.
  intros Hstep sched. induction sched as [|a sched IH]; simpl; intros s s' HQ HP Hrun.
  - by simplify_eq.
  - apply Forall_cons in HQ as [Ha HQ].
    destruct (step a s) as [s1| |] eqn:Hs; try done. eauto.
Qed.

Lemma flags_run n e m s0 sched s :
  initial n e m = Some s0 → run sched s0 = Next s → flags s.
Proof.
  intros H0 Hrun. apply initial_fresh in H0 as ->.
  eapply (run_preserves (λ s, monitor s ∧ flags s)); [| |done].
  - intros a s1 s2 [M F] Hs. split; [by eapply monitor_step|by eapply flags_step].
  - split; [apply monitor_fresh|apply flags_fresh].
Qed.

(** isShuttingDown is false after tpCreate and, once true, stays true.
    shouldWaitForTasks is written by line 153 only, by a client that
    holds the mutex and whose next statement is line 154; in the log the
    writes of the two flags alternate, shouldWaitForTasks first, both by
    the same client.  When every call of tpDestroy comes from one thread,
    shouldWaitForTasks is written at most once, and exactly once when the
    pool is shutting down. *)
Lemma shutdown_flags n e m s0 sched s :
  initial n e m = Some s0 →
  run sched s0 = Next s →
  isShuttingDown (pool s0) = false ∧
  (∀ more s', run more s = Next s' →
     isShuttingDown (pool s) = true → isShuttingDown (pool s') = true) ∧
  (∀ a s', step a s = Next s' →
     shouldWaitForTasks (pool s') ≠ shouldWaitForTasks (pool s) ∨
     drain_writes (trace s') ≠ drain_writes (trace s) →
     ∃ c d, a = Step (Client c) ∧ clients s !! c = Some (DSetDrain d) ∧
            mutexEmptyQ (pool s) = Some (Client c) ∧
            clients s' !! c = Some DSetShut ∧
            mutexEmptyQ (pool s') = Some (Client c)) ∧
  (∃ pending,
     (drain_writes (trace s)).*1 = shut_writes (trace s) ++ pending ∧
     (pending = [] ∨
      ∃ c, pending = [c] ∧ clients s !! c = Some DSetShut ∧
           mutexEmptyQ (pool s) = Some (Client c))) ∧
  (isShuttingDown (pool s) = true ↔ shut_writes (trace s) ≠ []) ∧
  (∀ c0, Forall (sole_destroyer c0) sched →
     length (drain_writes (trace s)) ≤ 1 ∧
     (isShuttingDown (pool s) = true → length (drain_writes (trace s)) = 1)).
Proof.
  intros H0 Hrun.
  pose proof (monitor_run _ _ _ _ _ _ H0 Hrun) as M.
  pose proof (flags_run _ _ _ _ _ _ H0 Hrun) as F.
  split; [by apply initial_fresh in H0 as ->|].
  split; [intros more s'; apply shut_monotone_run|].
  split.
  { intros a s' Hs Hw.
    destruct (drain_written_by a s s' Hs Hw) as (c & d & -> & Hc & _ & _).
    exists c, d. split; [done|]. split; [done|].
    pose proof (mon_client s M c _ Hc eq_refl) as Ho.
    split; [done|].
    simpl in Hs. unfold step_client in Hs. rewrite Hc in Hs.
    destruct (released s); [done|]. simplify_eq. simpl.
    split; [by eapply lookup_set_same|done]. }
  split.
  { destruct (fl_settled s F) as [Heq|[c Hc]].
    - exists []. rewrite app_nil_r. auto.
    - exists [c]. split; [by apply (fl_paired s F)|].
      right. exists c. split; [done|]. split; [done|].
      by apply (mon_client s M c _ Hc). }
  split; [apply (fl_shut s F)|].
  intros c0 Hsole.
  assert (destroyed_once c0 s) as [Ho Hb Hn].
  { apply initial_fresh in H0 as ->.
    eapply (run_preserves_sched (sole_destroyer c0)); [|done|apply destroyed_once_fresh|done].
    intros a s1 s2 Ha D Hs. by eapply destroyed_once_step. }
  destruct Hn as [Hn|[Hn Hn']].
  - rewrite Hn. simpl. split; [lia|]. intros Hsh.
    apply (fl_shut s F) in Hsh.
    destruct (fl_settled s F) as [Heq|[c Hc]].
    + rewrite Hn in Heq. simpl in Heq. by destruct Hsh.
    + pose proof (fl_paired s F c Hc) as Hp. rewrite Hn in Hp.
      by destruct (shut_writes (trace s)).
  - rewrite Hn. split; [lia|done].
Qed.

(** C7, at two racing calls of tpDestroy: both calls pass the guard of
    line 144 while isShuttingDown is false.  Client 0 writes
    shouldWaitForTasks (false) and sets isShuttingDown; client 1 then
    takes the mutex and writes shouldWaitForTasks again (true), after
    isShuttingDown is true: the flag is written twice, the second time
    in another critical section than the one in which isShuttingDown
    became true.  Both calls go on to close the pool: the worker exits,
    client 0 joins it, and the pthread_join of client 1 on the same
    thread is undefined. *)
Theorem C7_racing_destroys_write_twice :
  ∃ s1 s2,
    run racing_destroys (fresh_system 1 false 2) = Next s1 ∧
    clients s1 = [DJoin 0; DLock 1] ∧
    isShuttingDown (pool s1) = true ∧ shouldWaitForTasks (pool s1) = false ∧
    drain_writes (trace s1) = [(0, false)] ∧ shut_writes (trace s1) = [0] ∧
    run second_write s1 = Next s2 ∧
    shouldWaitForTasks (pool s2) = true ∧
    drain_writes (trace s2) = [(0, false); (1, true)] ∧
    run second_join s2 = Undef.
Proof.
  do 2 eexists. split; [vm_compute; reflexivity|].
  split; [reflexivity|]. split; [reflexivity|]. split; [reflexivity|].
  split; [reflexivity|]. split; [reflexivity|].
  split; [vm_compute; reflexivity|].
  split; [reflexivity|]. split; [reflexivity|].
  vm_compute. reflexivity.
Qed.

(** ** Dequeue, run, free *)

Lemma snoc_split {A} (l1 l2 tr evs : list A) (x : A) :
  l1 ++ x :: l2 = tr ++ evs →
  (∃ l2', tr = l1 ++ x :: l2' ∧ l2 = l2' ++ evs) ∨
  (∃ e1, l1 = tr ++ e1 ∧ evs = e1 ++ x :: l2).
Proof.
  intros H. apply app_eq_inv in H as [(l & H1 & H2)|(l & H1 & H2)].
  - right. exists l. auto.
  - destruct l as [|y l]; simpl in H2; simplify_eq.
    + right. exists []. rewrite !app_nil_r. auto.
    + left. exists l. auto.
Qed.

Ltac in_evs H :=
  let e1 := fresh "e" in
  destruct H as (e1 & -> & H);
  destruct e1 as [|? [|? [|? ?]]]; simpl in H; simplify_eq.




(** ** Every task once *)

Lemma shut_held_step a s s' : shut_held s → step a s = Next s' → shut_held s'.
Proof.
  intros [Ha Hg] Hs.
  destruct a as [c op|[w|c]|c|c w|w]; step_inv Hs.
  all: try match goal with op : api_call |- _ => destruct op end.
  all: split; simpl; intros.
  all: split_lookups.
  all: simpl in *; simplify_eq.
  all: try done.
  all: try (by eauto).
  all: try (by apply Hg; congruence).
  all: try match goal with
       | H : clients _ !! _ = Some ?pc |- _ =>
           lazymatch eval cbn in (after_shut pc) with
           | true => by rewrite <- (Ha _ _ H eq_refl)
           end
       end.
Qed.

Lemma shut_held_fresh n j m : shut_held (fresh_system n j m).
Proof.
  split; simpl; [|done].
  intros c pc Hc. apply lookup_replicate in Hc as [-> _]. done.
Qed.

Lemma policy_no_drain dr q :
  shutdown_policy true dr (osIsQueueEmpty q) = TakeTask → dr = true.
Proof. destruct dr, q; simpl; done. Qed.

Lemma closing_step c0 d a s s' :
  quiet a → monitor s → closing c0 d s → step a s = Next s' → closing c0 d s'.
Proof.
  intros Ha M [Ho Harg Hb Hw Hdr Hq He Hn] Hs.
  destruct M as [Mn Mw Mc Mp Md Mj Mt Mg].
  destruct a as [c op|[w|c]|c|c w|w]; [done|..]; step_inv Hs.
  all: repeat match goal with
       | H : clients _ !! ?c = Some ?pc |- _ =>
           lazymatch pc with
           | CIdle => fail
           | _ => assert_fails (constr_eq c c0);
                  destruct (decide (c = c0)) as [->|Hne];
                  [|by pose proof (Ho _ _ H Hne)]
           end
       end.
  all: split; simpl; intros.
  all: split_lookups.
  all: simpl in *; simplify_eq.
  all: try done.
  all: try (by eauto).
  all: use_monitor Mw Mc Mp Md Mj Mt Mg.
  all: try congruence.
  all: try match goal with
       | Hp : shutdown_policy (isShuttingDown ?p) _ _ = TakeTask,
         Ht : isShuttingDown ?p = true |- False =>
           rewrite Ht in Hp; apply policy_no_drain in Hp;
           rewrite (Hdr Ht) in Hp; congruence
       | Hc : clients _ !! _ = Some ?pc, Hd : queue_done ?pc = true,
         Hne : taskQueue _ ≠ [] |- _ => destruct Hne; by eapply Hq
       | Hc : clients _ !! _ = Some (DSetDrain ?d0) |- drain_of ?d0 = _ =>
           by rewrite (Harg _ d0 Hc eq_refl)
       end.
  all: by destruct (taskQueue (pool s)).
Qed.

Lemma closing_call c0 d s :
  (∀ c pc, clients s !! c = Some pc → pc = CIdle) →
  isShuttingDown (pool s) = false →
  shut_held s →
  closing c0 d (emit [EvCall c0 (Destroy POOL d)] (set_client c0 (DCheck POOL d) s)).
Proof.
  intros Hidle Hsh [_ Hg].
  split; simpl; intros.
  all: split_lookups.
  all: simpl in *; simplify_eq.
  all: try done.
  all: try (by eauto).
  all: try congruence.
  all: by (rewrite Hg in Hsh; [|done]).
Qed.

(** What holds once tpDestroy has released the pool without a submit in
    flight: the queue was empty when it was destroyed, and every node
    ever enqueued was run once and freed by a worker, or freed by
    tpFreeThreadPool without being run. *)
Lemma released_accounts s :
  monitor s → ledger s → life s = Released → taskQueue (pool s) = [] →
  ∀ t, t ∈ enqueued (trace s) →
    (t ∈ executed (trace s) ∧ (∃ w, (Worker w, t) ∈ freed (trace s))) ∨
    ((t ∉ executed (trace s)) ∧ (∃ c, (Client c, t) ∈ freed (trace s))).
Proof.
  intros M L Hl Hq t Ht.
  rewrite (led_fifo s L), Hq, app_nil_r in Ht.
  apply snd_elem_of in Ht as [[w|c] Hd].
  - left. destruct (led_worker s L w t Hd) as [(pc & Hw & Hh)|[He Hf]].
    + assert (pc = WJoined) as -> by (eapply (mon_gone s M); [congruence|done]).
      done.
    + split; [done|]. by exists w.
  - right. split.
    + intros (w & Hw)%(led_exec s L).
      by pose proof (ledger_owner s _ _ t L Hw Hd).
    + exists c. by apply (led_teardown s L).
Qed.

Lemma sound_run n e m s0 sched s :
  initial n e m = Some s0 → run sched s0 = Next s →
  monitor s ∧ ledger s ∧ shut_held s.
Proof.
  intros H0 Hrun. apply initial_fresh in H0 as ->.
  eapply (run_preserves (λ s, monitor s ∧ ledger s ∧ shut_held s)); [| |done].
  - intros a s1 s2 (M & L & S) Hs.
    split; [by eapply monitor_step|].
    split; [by eapply ledger_step|by eapply shut_held_step].
  - split; [apply monitor_fresh|]. split; [apply ledger_fresh|apply shut_held_fresh].
Qed.

Lemma sound_more sched s s' :
  monitor s ∧ ledger s ∧ shut_held s → run sched s = Next s' →
  monitor s' ∧ ledger s' ∧ shut_held s'.
Proof.
  apply (run_preserves (λ s, monitor s ∧ ledger s ∧ shut_held s)).
  intros a s1 s2 (M & L & S) Hs.
  split; [by eapply monitor_step|].
  split; [by eapply ledger_step|by eapply shut_held_step].
Qed.












(** ** The lock, the workers and the teardown *)

Lemma lock_scope_step a s s' :
  lock_scope s → step a s = Next s' → lock_scope s'.
Proof.
  intros H Hs w0 Ho.
  destruct a as [c op|[w|c]|c|c w|w]; step_inv Hs; simpl in *; simplify_eq.
  all: try (destruct (H w0 Ho) as (pc0 & Hpc0 & Hcr)).
  all: try (by eauto using lookup_set_same).
  all: try (destruct (decide (w0 = w)) as [->|Hne];
            [simplify_eq; eauto using lookup_set_same
            |rewrite list_lookup_insert_ne by done; eauto]).
  all: try (rewrite list_lookup_fmap, Hpc0; simpl; destruct pc0; simpl in *; eauto; done).
  all: exists pc0; split; [|done]; apply lookup_set_keep; [done|intros ->; simplify_eq; done].
Qed.

Lemma lock_scope_fresh n j m : lock_scope (fresh_system n j m).
Proof. intros w H. done. Qed.

Lemma lock_scope_run n e m s0 sched s :
  initial n e m = Some s0 → run sched s0 = Next s → lock_scope s.
Proof.
  intros H0 Hrun. apply initial_fresh in H0 as ->.
  eapply run_preserves; [|apply lock_scope_fresh|done].
  intros. by eapply lock_scope_step.
Qed.

(** X1: mutual exclusion.  In every state a run reaches, at most one
    thread is between a lock and an unlock of mutexEmptyQ: two workers, two
    clients, or a worker and a client are never there together. *)
Theorem X1_mutual_exclusion n e m s0 sched s :
  initial n e m = Some s0 →
  run sched s0 = Next s →
  (∀ w w' pc pc', workers s !! w = Some pc → workers s !! w' = Some pc' →
     w_critical pc = true → w_critical pc' = true → w = w') ∧
  (∀ c c' pc pc', clients s !! c = Some pc → clients s !! c' = Some pc' →
     c_critical pc = true → c_critical pc' = true → c = c') ∧
  (∀ w c pc pc', workers s !! w = Some pc → clients s !! c = Some pc' →
     w_critical pc = true → c_critical pc' = true → False).
Proof.
  intros H0 Hrun. pose proof (monitor_run _ _ _ _ _ _ H0 Hrun) as M.
  split; [|split].
  - intros w w' pc pc' Hw Hw' Hc Hc'.
    pose proof (mon_worker s M _ _ Hw Hc). pose proof (mon_worker s M _ _ Hw' Hc').
    congruence.
  - intros c c' pc pc' Hw Hw' Hc Hc'.
    pose proof (mon_client s M _ _ Hw Hc). pose proof (mon_client s M _ _ Hw' Hc').
    congruence.
  - intros w c pc pc' Hw Hw' Hc Hc'.
    pose proof (mon_worker s M _ _ Hw Hc). pose proof (mon_client s M _ _ Hw' Hc').
    congruence.
Qed.

Lemma X1_mutual_exclusion_witness :
  ∃ s, run ready_to_dequeue (fresh_system 1 false 1) = Next s ∧
       workers s !! 0 = Some WDequeue ∧
       ∀ c pc, clients s !! c = Some pc → c_critical pc = true → False.
Proof.
  eexists. split; [vm_compute; reflexivity|]. split; [reflexivity|].
  intros c pc Hc Hcr.
  eapply (proj2 (proj2 (X1_mutual_exclusion 1 env_ok 1 (fresh_system 1 false 1)
                          ready_to_dequeue _ eq_refl
                          ltac:(vm_compute; reflexivity))) 0 c WDequeue pc);
    [reflexivity|exact Hc|reflexivity|exact Hcr].
Defined.

(** X2: a worker owns the mutex exactly while it is between lock and
    unlock.  While it runs a task (line 61), frees the node (line 62),
    waits on the condition variable, or after it has terminated, it does
    not own it. *)
Theorem X2_tasks_run_unlocked n e m s0 sched s w pc :
  initial n e m = Some s0 →
  run sched s0 = Next s →
  workers s !! w = Some pc →
  (mutexEmptyQ (pool s) = Some (Worker w) ↔ w_critical pc = true) ∧
  (∀ t, pc = WCall t ∨ pc = WFree t ∨ pc = WWait ∨ pc = WDone →
        mutexEmptyQ (pool s) ≠ Some (Worker w)).
Proof.
  intros H0 Hrun Hw.
  pose proof (monitor_run _ _ _ _ _ _ H0 Hrun) as M.
  pose proof (lock_scope_run _ _ _ _ _ _ H0 Hrun) as L.
  assert (mutexEmptyQ (pool s) = Some (Worker w) → w_critical pc = true) as Hcr.
  { intros (pc' & Hw' & Hc)%L. congruence. }
  split; [split; [done|by apply (mon_worker s M)]|].
  intros t Hpc Ho. apply Hcr in Ho. by destruct Hpc as [->|[->|[->| ->]]].
Qed.

Lemma X2_tasks_run_unlocked_witness :
  ∃ s, run running_task (fresh_system 1 false 1) = Next s ∧
       workers s !! 0 = Some (WCall 0) ∧
       mutexEmptyQ (pool s) ≠ Some (Worker 0).
Proof.
  eexists. split; [vm_compute; reflexivity|]. split; [reflexivity|].
  eapply (proj2 (X2_tasks_run_unlocked 1 env_ok 1 (fresh_system 1 false 1)
                   running_task _ 0 (WCall 0) eq_refl
                   ltac:(vm_compute; reflexivity) eq_refl) 0).
  by left.
Defined.

Lemma worker_step_defined s w :
  monitor s → ledger s → step (Step (Worker w)) s ≠ Undef.
Proof.
  intros [Hn Hw Hc Hp Hd Hj Ht Hg] L Hs. step_inv Hs.
  all: use_monitor Hw Hc Hp Hd Hj Ht Hg; try congruence.
  all: try (simplify_eq; simpl in *; rewrite Nat.eqb_refl in *; done).
  all: try (by destruct (taskQueue (pool s))).
  all: match goal with
       | H : workers ?s !! _ = Some (WCall ?t), H1 : nodes ?s !! ?t = None |- _ =>
           destruct (led_held s L _ _ t H eq_refl) as [Hdq _];
           apply elem_of_snd in Hdq;
           assert (t ∈ enqueued (trace s)) as He
             by (rewrite (led_fifo s L); apply elem_of_app; by left);
           apply (led_alloc s L) in He;
           apply lookup_ge_None in H1; lia
       end.
Qed.

(** X3: tpRoutine performs no undefined operation.  From every state a
    run reaches, the next statement of a worker is defined: it never
    dequeues from an empty queue, never unlocks a mutex it does not own,
    never reads a task node that was not allocated, and never touches the
    queue or the pool after tpFreeThreadPool took them away. *)
Theorem X3_worker_never_undefined n e m s0 sched s w :
  initial n e m = Some s0 →
  run sched s0 = Next s →
  step (Step (Worker w)) s ≠ Undef.
Proof.
  intros H0 Hrun.
  destruct (sound_run _ _ _ _ _ _ H0 Hrun) as (M & L & _).
  by apply worker_step_defined.
Qed.

Lemma X3_worker_never_undefined_witness :
  ∃ s, run running_task (fresh_system 1 false 1) = Next s ∧
       step (Step (Worker 0)) s ≠ Undef.
Proof.
  eexists. split; [vm_compute; reflexivity|].
  exact (X3_worker_never_undefined 1 env_ok 1 (fresh_system 1 false 1) running_task
           _ 0 eq_refl ltac:(vm_compute; reflexivity)).
Defined.

Lemma policy_terminate sh dr em : shutdown_policy sh dr em = Terminate → sh = true.
Proof. by destruct sh, dr, em. Qed.

Lemma serving_step a s s' : serving s → step a s = Next s' → serving s'.
Proof.
  intros H Hs w0 pc0 Hl.
  destruct a as [c op|[w|c]|c|c w|w]; step_inv Hs; simpl in *.
  all: split_lookups.
  all: try (by apply H).
  all: try (split; [done|]; intros; try done).
  all: try (eapply policy_terminate; eassumption).
  all: try match goal with
       | Hw : workers ?s !! _ = Some ?pc |- isShuttingDown (pool ?s) = true =>
           by apply (H _ _ Hw)
       | Hw : workers ?s !! _ = Some (WEntry NULL) |- _ =>
           by destruct (H _ _ Hw)
       | Hw : workers ?s !! _ = Some _ |- _ ≠ _ ∧ _ =>
           destruct (H _ _ Hw); split; [done|]; simpl; intros; auto
       end.
Qed.

Lemma serving_fresh n j m : serving (fresh_system n j m).
Proof. intros w pc [-> _]%lookup_replicate. done. Qed.

(** X4: a worker leaves the loop of tpRoutine only when the pool is
    shutting down.  In every state a run reaches, a worker that is at the
    final unlock of line 67, has terminated, or has been joined, sees
    isShuttingDown true: no worker thread ends before tpDestroy was called. *)
Theorem X4_workers_exit_on_shutdown n e m s0 sched s w pc :
  initial n e m = Some s0 →
  run sched s0 = Next s →
  workers s !! w = Some pc →
  w_exiting pc = true →
  isShuttingDown (pool s) = true.
Proof.
  intros H0 Hrun Hw Hx. apply initial_fresh in H0 as ->.
  assert (serving s) as S.
  { eapply run_preserves; [|apply serving_fresh|done].
    intros. by eapply serving_step. }
  by apply (S w pc).
Qed.

Lemma X4_workers_exit_on_shutdown_witness :
  ∃ s, run shut_idle (fresh_system 1 false 1) = Next s ∧
       workers s !! 0 = Some WExit ∧
       isShuttingDown (pool s) = true.
Proof.
  eexists. split; [vm_compute; reflexivity|]. split; [reflexivity|].
  exact (X4_workers_exit_on_shutdown 1 env_ok 1 (fresh_system 1 false 1) shut_idle
           _ 0 WExit eq_refl ltac:(vm_compute; reflexivity) eq_refl eq_refl).
Defined.

Lemma worker_dequeues_app tr1 tr2 :
  worker_dequeues (tr1 ++ tr2) = worker_dequeues tr1 ++ worker_dequeues tr2.
Proof. apply omap_app. Qed.

Lemma all_joined_step a s s' :
  all_joined s → step a s = Next s' →
  all_joined s' ∧ executed (trace s') = executed (trace s) ∧
  worker_dequeues (trace s') = worker_dequeues (trace s).
Proof.
  intros H Hs.
  destruct a as [c op|[w|c]|c|c w|w]; step_inv Hs; simpl in *.
  all: try match goal with
       | Hw : workers ?s !! _ = Some _ |- _ => by pose proof (H _ _ Hw)
       end.
  all: split; [|by rewrite ?executed_app, ?worker_dequeues_app, ?app_nil_r].
  all: intros k0 pc0 Hl; simpl in *.
  all: first [ apply lookup_wake in Hl as (y & Hy & ->); by rewrite (H _ _ Hy)
             | split_lookups; by eauto ].
Qed.

Lemma all_joined_run sched s s' :
  all_joined s → run sched s = Next s' →
  all_joined s' ∧ executed (trace s') = executed (trace s) ∧
  worker_dequeues (trace s') = worker_dequeues (trace s).
Proof.
  intros H Hrun. revert Hrun.
  apply (run_preserves (λ s1, all_joined s1 ∧ executed (trace s1) = executed (trace s) ∧
       worker_dequeues (trace s1) = worker_dequeues (trace s))); [|done].
  intros a s1 s2 (J & E & D) Hs.
  destruct (all_joined_step _ _ _ J Hs) as (J' & E' & D').
  split; [done|]. split; congruence.
Qed.

(** X5: tpFreeThreadPool runs after the workers.  Once a client is in
    tpFreeThreadPool, or the queue or the pool has been released, every
    worker has been joined, and from then on no worker dequeues a node and
    no task is run, whatever is scheduled. *)
Theorem X5_no_task_after_teardown n e m s0 pre s post s' :
  initial n e m = Some s0 →
  run pre s0 = Next s →
  (life s ≠ Live ∨ ∃ c pc, clients s !! c = Some pc ∧ c_teardown pc = true) →
  run post s = Next s' →
  (∀ k pc, workers s !! k = Some pc → pc = WJoined) ∧
  (∀ k pc, workers s' !! k = Some pc → pc = WJoined) ∧
  executed (trace s') = executed (trace s) ∧
  worker_dequeues (trace s') = worker_dequeues (trace s).
Proof.
  intros H0 Hpre Hs Hpost.
  pose proof (monitor_run _ _ _ _ _ _ H0 Hpre) as M.
  assert (all_joined s) as J.
  { destruct Hs as [Hl|(c & pc & Hc & Ht)].
    - intros k pc Hk. by apply (mon_gone s M Hl k).
    - intros k pc' Hk. by apply (mon_teardown s M c pc Hc Ht k). }
  split; [done|]. by apply all_joined_run with post.
Qed.

Lemma X5_no_task_after_teardown_witness :
  ∃ s s', run shut_joined (fresh_system 1 false 1) = Next s ∧
          clients s !! 0 = Some FCheck ∧
          run [Step (Client 0); Step (Client 0); Step (Client 0)] s = Next s' ∧
          life s' = Released ∧
          (∀ k pc, workers s' !! k = Some pc → pc = WJoined) ∧
          executed (trace s') = executed (trace s).
Proof.
  eexists. eexists. split; [vm_compute; reflexivity|]. split; [reflexivity|].
  split; [vm_compute; reflexivity|]. split; [reflexivity|].
  pose proof (X5_no_task_after_teardown 1 env_ok 1 (fresh_system 1 false 1) shut_joined
           _ [Step (Client 0); Step (Client 0); Step (Client 0)] _ eq_refl
           ltac:(vm_compute; reflexivity)
           (or_intror (ex_intro _ 0 (ex_intro _ FCheck (conj eq_refl eq_refl))))
           ltac:(vm_compute; reflexivity)) as (_ & H1 & H2 & _).
  split; [exact H1|exact H2].
Defined.

(** X6: a spurious wake-up changes nothing.  A worker blocked in
    pthread_cond_wait that returns without a signal, the queue being empty
    and the pool not shutting down, takes the mutex, tests the condition
    of line 29 again and blocks again: the machine is back in the state
    it was in. *)
Theorem X6_spurious_wakeup_is_noop s w :
  workers s !! w = Some WWait →
  mutexEmptyQ (pool s) = None →
  life s = Live →
  taskQueue (pool s) = [] →
  isShuttingDown (pool s) = false →
  run [Spurious w; Step (Worker w); Step (Worker w)] s = Next s.
Proof.
  intros Hw Ho Hl Hq Hs.
  destruct s as [[q sh dr n o] l ws cs ns tr]; simpl in *; subst.
  unfold spurious; simpl. rewrite Hw.
  unfold step_worker, lock, unlock, owned_by, released, queue_live; simpl.
  erewrite lookup_set_same by done. simpl.
  erewrite lookup_set_same by (by erewrite lookup_set_same). simpl.
  rewrite Nat.eqb_refl. unfold set_worker, set_owner; simpl.
  rewrite !list_insert_insert_eq, list_insert_id by done. done.
Qed.

Lemma X6_spurious_wakeup_is_noop_witness :
  ∃ s, run [Step (Worker 0); Step (Worker 0); Step (Worker 0)]
         (fresh_system 1 false 1) = Next s ∧
       run [Spurious 0; Step (Worker 0); Step (Worker 0)] s = Next s.
Proof.
  eexists. split; [vm_compute; reflexivity|].
  apply (X6_spurious_wakeup_is_noop _ 0); reflexivity.
Defined.

(** X7: tpDestroy has no null check, and no call survives the release of
    the pool.  tpDestroy(NULL, d) dereferences the null pointer at line
    144; after free(threadPool) at line 280 every call of tpInsertTask or
    tpDestroy on the old handle reads released memory at its first
    statement. *)
Theorem X7_bad_handle_undefined s c op :
  clients s !! c = Some CIdle →
  (∃ d, op = Destroy NULL d) ∨ (handle_of op = POOL ∧ life s = Released) →
  run [Call c op; Step (Client c)] s = Undef.
Proof.
  intros Hc H. simpl. unfold call_client. rewrite Hc.
  unfold step_client, released; simpl.
  erewrite lookup_set_same by done.
  destruct H as [[d ->]|[Hh Hl]]; [done|].
  destruct op as [h f p|h d]; simpl in *; subst; by rewrite Hl.
Qed.

Lemma X7_bad_handle_undefined_witness :
  run [Call 0 (Destroy NULL 1); Step (Client 0)] (fresh_system 1 false 1) = Undef ∧
  ∃ s, run (shut_joined ++ [Step (Client 0); Step (Client 0); Step (Client 0)])
         (fresh_system 1 false 1) = Next s ∧
       run [Call 0 (Insert POOL (Some 7) 9); Step (Client 0)] s = Undef.
Proof.
  split.
  - exact (X7_bad_handle_undefined (fresh_system 1 false 1) 0 (Destroy NULL 1) eq_refl
             (or_introl (ex_intro _ 1%Z eq_refl))).
  - eexists. split; [vm_compute; reflexivity|].
    apply (X7_bad_handle_undefined _ 0 (Insert POOL (Some 7) 9)); [reflexivity|].
    right. split; reflexivity.
Defined.

Lemma no_workers_step a s s' :
  workers s = [] → step a s = Next s' →
  workers s' = [] ∧ executed (trace s') = executed (trace s).
Proof.
  intros H Hs.
  destruct a as [c op|[w|c]|c|c w|w]; step_inv Hs; simpl in *.
  all: try match goal with
       | Hw : workers ?s !! _ = Some _ |- _ => by rewrite H in Hw
       end.
  all: rewrite ?H, ?executed_app, ?app_nil_r; done.
Qed.

(** X8: a pool created with no thread runs nothing.  With numOfThreads
    zero or negative, neither loop of tpCreate starts a thread;
    tpInsertTask still accepts tasks, but in no run is any of them ever
    executed. *)
Theorem X8_no_threads_no_execution n e m s0 sched s :
  (n ≤ 0)%Z →
  initial n e m = Some s0 →
  run sched s0 = Next s →
  workers s = [] ∧ executed (trace s) = [].
Proof.
  intros Hn H0 Hrun. apply initial_fresh in H0 as ->.
  revert Hrun. apply (run_preserves (λ s, workers s = [] ∧ executed (trace s) = [])).
  - intros a s1 s2 [W E] Hs. destruct (no_workers_step _ _ _ W Hs) as [W' E'].
    split; [done|congruence].
  - unfold fresh_system; simpl. by replace (Z.to_nat n) with 0 by lia.
Qed.

Lemma X8_no_threads_no_execution_witness :
  ∃ s, run (submit 0 7 9) (fresh_system 0 false 1) = Next s ∧
       taskQueue (pool s) = [0] ∧
       workers s = [] ∧ executed (trace s) = [].
Proof.
  eexists. split; [vm_compute; reflexivity|]. split; [reflexivity|].
  exact (X8_no_threads_no_execution 0 env_ok 1 (fresh_system 0 false 1) (submit 0 7 9)
           _ ltac:(lia) eq_refl ltac:(vm_compute; reflexivity)).
Defined.

(** ** tpCreate *)

Lemma start_threads_all e k i :
  forallb (malloc_thread e) (seq i k) = true →
  start_threads e k i = (true, replicate k (WEntry POOL)).
Proof.
  revert i. induction k as [|k IH]; simpl; intros i H; [done|].
  apply andb_prop in H as [Hi Hk]. rewrite Hi, (IH _ Hk). done.
Qed.

Lemma start_threads_fail e todo i k :
  k < todo → malloc_thread e (i + k) = false →
  (∀ j, j < k → malloc_thread e (i + j) = true) →
  start_threads e todo i = (false, replicate k (WEntry POOL)).
Proof.
  revert i k. induction todo as [|todo IH]; simpl; intros i k Hk Hf Ht; [lia|].
  destruct k as [|k].
  - rewrite Nat.add_0_r in Hf. by rewrite Hf.
  - pose proof (Ht 0 ltac:(lia)) as H0. rewrite Nat.add_0_r in H0. rewrite H0.
    rewrite (IH (S i) k); [done|lia| |].
    + by replace (S i + k) with (i + S k) by lia.
    + intros j Hj. replace (S i + j) with (i + S j) by lia. apply Ht. lia.
Qed.

(** X9: a tpCreate whose allocations all succeed returns the pool, with
    the queue empty, isShuttingDown false, the mutex free, numOfThreads as
    given, and one thread started on tpRoutine(pool) for each index below
    numOfThreads. *)
Theorem X9_create_success n e m :
  all_allocated n e = true →
  tpCreate n e =
    mk_create_result POOL (replicate (Z.to_nat n) (WEntry POOL))
      (Some (mk_pool [] false (junk e) n None)) ∧
  initial n e m =
    Some (mk_system (mk_pool [] false (junk e) n None) Live
            (replicate (Z.to_nat n) (WEntry POOL)) (replicate m CIdle) [] []).
Proof.
  intros H. unfold all_allocated in H.
  repeat (apply andb_prop in H as [H ?]).
  assert (tpCreate n e =
    mk_create_result POOL (replicate (Z.to_nat n) (WEntry POOL))
      (Some (mk_pool [] false (junk e) n None))) as E.
  { unfold tpCreate.
    repeat match goal with H : _ = true |- _ => rewrite H; clear H end. simpl.
    by rewrite start_threads_all. }
  split; [done|]. unfold initial. by rewrite E.
Qed.

Lemma X9_create_success_witness :
  tpCreate 3 env_ok =
    mk_create_result POOL [WEntry POOL; WEntry POOL; WEntry POOL]
      (Some (mk_pool [] false false 3 None)) ∧
  initial 3 env_ok 2 =
    Some (mk_system (mk_pool [] false false 3 None) Live
            [WEntry POOL; WEntry POOL; WEntry POOL] [CIdle; CIdle] [] []).
Proof. exact (X9_create_success 3 env_ok 2 eq_refl). Defined.

(** X10: a tpCreate that fails on a thread handle leaves the threads
    started before it.  When the first malloc of line 126 to return NULL
    is the one of index k, tpCreate returns NULL at line 128 with k
    threads already started on the pool by line 130; the pool, its
    mutex, its condition variable and its queue stay allocated. *)
Theorem X10_create_thread_failure n e k :
  malloc_pool e = true → malloc_array e = true → malloc_mutex e = true →
  malloc_cv e = true → create_queue e = true →
  k < Z.to_nat n →
  malloc_thread e k = false →
  (∀ j, j < k → malloc_thread e j = true) →
  tpCreate n e =
    mk_create_result NULL (replicate k (WEntry POOL))
      (Some (mk_pool [] false (junk e) n None)).
Proof.
  intros Hp Ha Hm Hc Hq Hk Hf Ht. unfold tpCreate.
  rewrite Hp, Ha, Hm, Hc, Hq. simpl.
  by rewrite (start_threads_fail e (Z.to_nat n) 0 k).
Qed.

Lemma X10_create_thread_failure_witness :
  tpCreate 4 (mk_create_env true true true true true (λ i, i <? 2) true) =
    mk_create_result NULL [WEntry POOL; WEntry POOL]
      (Some (mk_pool [] false true 4 None)).
Proof.
  apply (X10_create_thread_failure 4
           (mk_create_env true true true true true (λ i, i <? 2) true) 2);
    try reflexivity.
  - simpl. lia.
  - intros j Hj. simpl. apply Nat.ltb_lt. exact Hj.
Defined.

(** ** A call of tpInsertTask *)

Lemma run_step a l s s1 : step a s = Next s1 → run (a :: l) s = run l s1.
Proof. intros H. simpl. by rewrite H. Qed.

Lemma released_live s : life s = Live → released s = false.
Proof. unfold released. by intros ->. Qed.

Lemma queue_live_live s : life s = Live → queue_live s = true.
Proof. unfold queue_live. by intros ->. Qed.

Lemma step_call s c op :
  clients s !! c = Some CIdle →
  step (Call c op) s = Next (emit [EvCall c op] (set_client c (entry_of op) s)).
Proof. intros H. simpl. unfold call_client. by rewrite H. Qed.

Lemma step_ICheck s c f p :
  clients s !! c = Some (ICheck POOL (Some f) p) → life s = Live →
  isShuttingDown (pool s) = false →
  step (Step (Client c)) s = Next (set_client c (ICreate f p) s).
Proof.
  intros H Hl Hs. simpl. unfold step_client. by rewrite H, released_live, Hs.
Qed.

Lemma step_ICreate s c f p :
  clients s !! c = Some (ICreate f p) →
  step (Step (Client c)) s =
  Next (set_client c (ILock (length (nodes s))) (alloc_node (mk_task_node f p) s)).
Proof. intros H. simpl. unfold step_client. by rewrite H. Qed.

Lemma step_lock s t k :
  life s = Live → mutexEmptyQ (pool s) = None →
  lock t k s = Next (k (set_owner (Some t) s)).
Proof. intros Hl Ho. unfold lock. by rewrite released_live, Ho. Qed.

Lemma step_unlock s t k :
  life s = Live → mutexEmptyQ (pool s) = Some t →
  unlock t k s = Next (k (set_owner None s)).
Proof.
  intros Hl Ho. unfold unlock, owned_by. rewrite released_live, Ho by done.
  destruct t; simpl; by rewrite Nat.eqb_refl.
Qed.

Lemma step_ILock s c t :
  clients s !! c = Some (ILock t) → life s = Live → mutexEmptyQ (pool s) = None →
  step (Step (Client c)) s =
  Next (set_client c (IEnqueue t) (set_owner (Some (Client c)) s)).
Proof. intros H Hl Ho. simpl. unfold step_client. by rewrite H, step_lock. Qed.

Lemma step_IEnqueue s c t :
  clients s !! c = Some (IEnqueue t) → life s = Live →
  step (Step (Client c)) s =
  Next (emit [EvEnqueue c t]
          (set_client c ISignal (set_queue (osEnqueue (taskQueue (pool s)) t) s))).
Proof. intros H Hl. simpl. unfold step_client. by rewrite H, queue_live_live. Qed.

Lemma step_ISignal s c wk :
  clients s !! c = Some ISignal → life s = Live →
  match wk with
  | Some w => workers s !! w = Some WWait
  | None => existsb is_waiting (workers s) = false
  end →
  step (match wk with Some w => Signal c w | None => Step (Client c) end) s =
  Next (set_client c IUnlock
          (match wk with Some w => set_worker w WWoken s | None => s end)).
Proof.
  intros H Hl Hw. destruct wk as [w|]; simpl.
  - unfold signal_client. by rewrite H, Hw, released_live.
  - unfold step_client. by rewrite H, released_live, Hw.
Qed.

Lemma step_IUnlock s c :
  clients s !! c = Some IUnlock → life s = Live →
  mutexEmptyQ (pool s) = Some (Client c) →
  step (Step (Client c)) s = Next (ret_insert c RetInserted (set_owner None s)).
Proof. intros H Hl Ho. simpl. unfold step_client. by rewrite H, step_unlock. Qed.

Ltac top_client :=
  simpl; apply list_lookup_insert_eq; rewrite ?length_insert;
  eapply lookup_lt_Some; eassumption.

(** X11: a tpInsertTask that succeeds.  On a live pool that is not
    shutting down, with the mutex free, a call of tpInsertTask with a
    non-null function that runs to its end returns 0, has allocated one
    node holding the function and the parameter, has put it at the tail
    of the queue, has woken the waiter the signal chose and no other
    thread, and leaves the mutex free and the flags as they were. *)
Theorem X11_submit_enqueues s c f p wk :
  clients s !! c = Some CIdle →
  life s = Live →
  isShuttingDown (pool s) = false →
  mutexEmptyQ (pool s) = None →
  match wk with
  | Some w => workers s !! w = Some WWait
  | None => existsb is_waiting (workers s) = false
  end →
  ∃ s', run (submit_waking c f p wk) s = Next s' ∧
        ret_value RetInserted = TASK_INSERT_SUCCESS ∧
        pool s' = mk_pool (taskQueue (pool s) ++ [length (nodes s)]) false
                    (shouldWaitForTasks (pool s)) (numOfThreads (pool s)) None ∧
        nodes s' = nodes s ++ [mk_task_node f p] ∧
        workers s' = match wk with
                     | Some w => <[w := WWoken]> (workers s)
                     | None => workers s
                     end ∧
        clients s' = clients s ∧ life s' = Live ∧
        trace s' = trace s ++ [EvCall c (Insert POOL (Some f) p);
                               EvEnqueue c (length (nodes s));
                               EvInsertRet c RetInserted].
Proof.
  intros Hc Hl Hs Ho Hw. unfold submit_waking.
  erewrite run_step by (by apply step_call).
  erewrite run_step by (apply step_ICheck; [top_client|done|done]).
  erewrite run_step by (apply step_ICreate; top_client).
  erewrite run_step by (apply step_ILock; [top_client|done|done]).
  erewrite run_step by (apply step_IEnqueue; [top_client|done]).
  erewrite run_step by (apply (step_ISignal _ c wk); [top_client|done|by destruct wk]).
  destruct wk as [w|].
  all: erewrite run_step by (apply step_IUnlock; [top_client|done|done]).
  all: eexists; split; [done|]; split; [done|].
  all: simpl; rewrite Hs.
  all: rewrite !list_insert_insert_eq, (list_insert_id (clients s) c CIdle) by done.
  all: by rewrite <- !app_assoc.
Qed.

Lemma X11_submit_enqueues_witness :
  ∃ s s', run [Step (Worker 0); Step (Worker 0); Step (Worker 0)]
            (fresh_system 1 false 1) = Next s ∧
          run (submit_waking 0 7 9 (Some 0)) s = Next s' ∧
          taskQueue (pool s') = [0] ∧ nodes s' = [mk_task_node 7 9] ∧
          workers s' = [WWoken] ∧ mutexEmptyQ (pool s') = None.
Proof.
  eexists. eexists. split; [vm_compute; reflexivity|].
  pose proof (X11_submit_enqueues
    (mk_system (mk_pool [] false false 1 None) Live [WWait] [CIdle] [] [])
    0 7 9 (Some 0) eq_refl eq_refl eq_refl eq_refl eq_refl)
    as (s' & Hrun & _).
  split; [vm_compute; reflexivity|]. repeat split; reflexivity.
Defined.





Lemma provenance_step a s s' : provenance s → step a s = Next s' → provenance s'.
Proof.
  intros [Hk Hc Hn He] Hs.
  destruct a as [c op|[w|c]|c|c w|w]; step_inv Hs.
  all: split; simpl; intros.
  all: try match goal with
       | H : _ ++ _ = _ ++ _ :: _ |- _ =>
           symmetry in H; apply snoc_split in H as [(l2' & H & ->)|H];
           [|in_evs H]
       end.
  all: split_lookups.
  all: rewrite ?app_nil_r.
  all: try (by eauto).
  all: try (apply elem_of_app; left; by eauto).
  all: try (apply elem_of_app; right; by repeat constructor).
  all: try match goal with
       | H : nodes ?s !! _ = Some ?nd |- ∃ c, _ ∈ trace ?s ++ _ =>
           destruct (Hn _ _ H) as [c' Hc']; exists c'; apply elem_of_app; by left
       | H : trace ?s = _ ++ EvExec _ _ _ _ :: _ |- _ =>
           destruct (He _ _ _ _ _ _ H) as [Hnd Hcall]; split; [|done];
           try done; by apply lookup_app_l_Some
       end.
  all: try (destruct op; simpl in *; simplify_eq;
            apply elem_of_app; right; by repeat constructor).
  - match goal with
    | H : nodes s !! _ = Some ?t0 |- _ =>
        destruct t0; simpl; split; [done|]; by apply (Hn _ _ H)
    end.
  - match goal with
    | H : (nodes s ++ _) !! _ = Some _ |- _ =>
        apply lookup_app_Some in H as [H|[_ H]]; [by eauto|];
        apply list_lookup_singleton_Some in H as [_ <-]; simpl; by eauto
    end.
Qed.

Lemma provenance_fresh n j m : provenance (fresh_system n j m).
Proof.
  split; simpl; intros;
    repeat match goal with
    | H : replicate _ _ !! _ = Some _ |- _ => apply lookup_replicate in H; destruct H
    end; simplify_eq; try done.
  by destruct l1.
Qed.

(** X13: a worker runs what was submitted.  Every call of line 61 in the
    log runs the function and the parameter stored in the node, and these
    are the function and the parameter of a call of tpInsertTask made
    earlier in the log. *)
Theorem X13_runs_what_was_submitted n e m s0 sched s l1 l2 w t f p :
  initial n e m = Some s0 →
  run sched s0 = Next s →
  trace s = l1 ++ EvExec w t f p :: l2 →
  nodes s !! t = Some (mk_task_node f p) ∧
  ∃ c, EvCall c (Insert POOL (Some f) p) ∈ l1.
Proof.
  intros H0 Hrun Htr. apply initial_fresh in H0 as ->.
  assert (provenance s) as P.
  { eapply run_preserves; [|apply provenance_fresh|done].
    intros. by eapply provenance_step. }
  by apply (pv_exec s P l1 l2 w).
Qed.

Lemma X13_runs_what_was_submitted_witness :
  ∃ s, run task_run (fresh_system 1 false 1) = Next s ∧
       trace s = [EvCall 0 (Insert POOL (Some 7) 0); EvEnqueue 0 0;
                  EvInsertRet 0 RetInserted; EvDequeue (Worker 0) 0] ++
                 EvExec 0 0 7 0 :: [] ∧
       nodes s !! 0 = Some (mk_task_node 7 0) ∧
       ∃ c, EvCall c (Insert POOL (Some 7) 0) ∈
              [EvCall 0 (Insert POOL (Some 7) 0); EvEnqueue 0 0;
               EvInsertRet 0 RetInserted; EvDequeue (Worker 0) 0].
Proof.
  eexists. split; [vm_compute; reflexivity|]. split; [reflexivity|].
  exact (X13_runs_what_was_submitted 1 env_ok 1 (fresh_system 1 false 1) task_run _
           [EvCall 0 (Insert POOL (Some 7) 0); EvEnqueue 0 0;
            EvInsertRet 0 RetInserted; EvDequeue (Worker 0) 0]
           [] 0 0 7 0 eq_refl ltac:(vm_compute; reflexivity) eq_refl).
Defined.

(** ** An orderly shutdown *)

Lemma policy_drain_terminate q :
  shutdown_policy true true (osIsQueueEmpty q) = Terminate → q = [].
Proof. by destruct q. Qed.

Lemma draining_step c0 d a s s' :
  quiet a → drain_of d = true → monitor s → serving s → closing c0 d s →
  draining c0 s →
  step a s = Next s' → draining c0 s'.
Proof.
  intros Ha Hd M Sv [Ho Harg Hb Hw Hdr Hq He Hn] [Dp Di Dx Dc Df] Hs.
  destruct M as [Mn Mw Mc Mp Md Mj Mt Mg].
  destruct a as [c op|[w|c]|c|c w|w]; [done|..]; step_inv Hs.
  all: repeat match goal with
       | H : clients _ !! ?c = Some ?pc |- _ =>
           lazymatch pc with
           | CIdle => fail
           | _ => assert_fails (constr_eq c c0);
                  destruct (decide (c = c0)) as [->|Hne];
                  [|by pose proof (Ho _ _ H Hne)]
           end
       end.
  all: try match goal with
       | H : clients _ !! _ = Some ?pc |- _ =>
           lazymatch eval cbn in (inserting pc) with
           | true => by pose proof (Di _ H)
           end
       | H : clients _ !! _ = Some FDequeue |- _ => by destruct (Df _ H)
       end.
  all: split; simpl; intros.
  all: rewrite ?length_insert, ?length_fmap; try done.
  all: rewrite ?dequeued_app; simpl; rewrite ?app_nil_r.
  all: split_lookups.
  all: try done.
  all: try (by eauto 3).
  all: try match goal with
       | H : workers _ !! _ = Some (WEntry NULL) |- _ => by destruct (Sv _ _ H)
       end.
  - pose proof (policy_terminate _ _ _ H2) as Hsh. rewrite Hsh, (Hdr Hsh), Hd in H2.
    by apply policy_drain_terminate.
  - rewrite (Dx _ _ H0 H3) in H2. done.
  - rewrite elem_of_snoc. intros [?|?]; [by eapply Dc|done].
  - destruct (lookup_lt_is_Some_2 (workers s) 0 Dp) as [pc Hpc].
    pose proof (Mt _ _ H eq_refl _ _ Hpc) as ->.
    rewrite (Dx _ _ Hpc eq_refl) in H2. done.
Qed.

Lemma serving_run n e m s0 sched s :
  initial n e m = Some s0 → run sched s0 = Next s → serving s.
Proof.
  intros H0 Hrun. apply initial_fresh in H0 as ->.
  eapply run_preserves; [|apply serving_fresh|done].
  intros. by eapply serving_step.
Qed.

Lemma threads_kept a s s' :
  step a s = Next s' → length (workers s') = length (workers s).
Proof.
  intros Hs.
  destruct a as [c op|[w|c]|c|c w|w]; step_inv Hs; simpl;
    by rewrite ?length_insert, ?length_fmap.
Qed.

Lemma threads_kept_run sched s s' :
  run sched s = Next s' → length (workers s') = length (workers s).
Proof.
  apply (run_preserves (λ s1, length (workers s1) = length (workers s))); [|done].
  intros a s1 s2 H1 Hs. by rewrite (threads_kept _ _ _ Hs).
Qed.

(** X14: tpDestroy with a non-zero shouldWaitForTasks runs every task.
    On a pool with at least one thread, when tpDestroy is called with no
    other call in flight and none made afterwards, then once it has
    released the pool every node ever enqueued has been run and freed by a
    worker, and tpFreeThreadPool has freed no node. *)
Theorem X14_drain_runs_every_task n e m s0 pre c0 d post s1 s2 :
  (0 < n)%Z →
  initial n e m = Some s0 →
  run pre s0 = Next s1 →
  (∀ c pc, clients s1 !! c = Some pc → pc = CIdle) →
  isShuttingDown (pool s1) = false →
  drain_of d = true →
  Forall quiet post →
  run (Call c0 (Destroy POOL d) :: post) s1 = Next s2 →
  life s2 = Released →
  (∀ t, t ∈ enqueued (trace s2) →
        t ∈ executed (trace s2) ∧ ∃ w, (Worker w, t) ∈ freed (trace s2)) ∧
  (∀ c t, (Client c, t) ∉ freed (trace s2)).
Proof.
  intros Hn H0 Hpre Hidle Hsh Hd Hq Hrun Hrel.
  destruct (sound_run _ _ _ _ _ _ H0 Hpre) as (M1 & L1 & SH1).
  pose proof (serving_run _ _ _ _ _ _ H0 Hpre) as Sv1.
  pose proof (workers_first_run _ _ _ _ _ _ H0 Hpre) as WF1.
  assert (0 < length (workers s1)) as Hpos.
  { rewrite (threads_kept_run _ _ _ Hpre).
    apply initial_fresh in H0 as ->. simpl. rewrite length_replicate. lia. }
  simpl in Hrun. unfold call_client in Hrun.
  destruct (clients s1 !! c0) as [[]|] eqn:Hc; try done.
  set (sc := emit [EvCall c0 (Destroy POOL d)] (set_client c0 (DCheck POOL d) s1)) in *.
  assert (step (Call c0 (Destroy POOL d)) s1 = Next sc) as Hcall.
  { simpl. unfold call_client. by rewrite Hc. }
  assert (draining c0 sc) as D.
  { split; simpl.
    - done.
    - intros pc Hpc. erewrite lookup_set_same in Hpc by done. by simplify_eq.
    - intros w pc Hw Hx. destruct (Sv1 w pc Hw) as [_ Hs]. rewrite Hs in Hsh; done.
    - intros c t. rewrite dequeued_app, app_nil_r. intros Hdq.
      destruct (lookup_lt_is_Some_2 (workers s1) 0 Hpos) as [pc Hpc].
      pose proof (wf_joined s1 WF1 c t Hdq 0 pc Hpc) as ->.
      destruct (Sv1 0 _ Hpc) as [_ Hs]. rewrite Hs in Hsh; done.
    - intros c Hf. apply lookup_set in Hf as [[_ ?]|[_ Hf]]; [done|].
      by pose proof (Hidle _ _ Hf). }
  assert (monitor s2 ∧ ledger s2 ∧ closing c0 d s2 ∧ draining c0 s2) as (M2 & L2 & C2 & D2).
  { cut (monitor s2 ∧ ledger s2 ∧ serving s2 ∧ closing c0 d s2 ∧ draining c0 s2);
      [intros (? & ? & ? & ? & ?); done|].
    eapply (run_preserves_sched quiet
              (λ s, monitor s ∧ ledger s ∧ serving s ∧ closing c0 d s ∧ draining c0 s));
      [|exact Hq| |exact Hrun].
    - intros a sa sb Ha (Ma & La & Sa & Ca & Da) Hs.
      split; [by eapply monitor_step|]. split; [by eapply ledger_step|].
      split; [by eapply serving_step|]. split; [by eapply closing_step|].
      by eapply draining_step.
    - split; [by eapply monitor_step|]. split; [by eapply ledger_step|].
      split; [by eapply serving_step|]. split; [by apply closing_call|done]. }
  assert (∀ c t, (Client c, t) ∉ freed (trace s2)) as Hnc.
  { intros c t Hf%(led_freed s2 L2). by eapply (dr_client c0 s2 D2). }
  split; [|done].
  intros t Ht.
  destruct (released_accounts s2 M2 L2 Hrel) with t as [?|[_ [c Hf]]]; [|done|done|].
  - apply (cl_empty c0 d s2 C2). congruence.
  - by destruct (Hnc c t).
Qed.

Lemma X14_drain_runs_every_task_witness :
  ∃ s1 s2,
    run ready_to_dequeue (fresh_system 1 false 1) = Next s1 ∧
    run (Call 0 (Destroy POOL 1) :: drain_down) s1 = Next s2 ∧
    enqueued (trace s2) = [0] ∧ executed (trace s2) = [0] ∧
    (∀ t, t ∈ enqueued (trace s2) →
          t ∈ executed (trace s2) ∧ ∃ w, (Worker w, t) ∈ freed (trace s2)) ∧
    (∀ c t, (Client c, t) ∉ freed (trace s2)).
Proof.
  do 2 eexists.
  split; [vm_compute; reflexivity|].
  split; [vm_compute; reflexivity|].
  split; [reflexivity|]. split; [reflexivity|].
  eapply (X14_drain_runs_every_task 1 env_ok 1 (fresh_system 1 false 1)
            ready_to_dequeue 0 1 drain_down).
  - lia.
  - reflexivity.
  - vm_compute. reflexivity.
  - intros [|c] pc Hc; vm_compute in Hc; congruence.
  - reflexivity.
  - reflexivity.
  - repeat constructor.
  - vm_compute. reflexivity.
  - reflexivity.
Defined.

Lemma orderly_defined c0 d a s :
  quiet a → monitor s → ledger s → lock_scope s → closing c0 d s → orderly c0 s →
  step a s ≠ Undef.
Proof.
  intros Ha M L LS C [Oi Oh Ol Og Ok Oj Op Of].
  destruct a as [c op|[w|c]|c|c w|w]; [done|by apply worker_step_defined|..].
  all: intros Hs.
  all: pose proof (cl_others c0 d s C) as Ho.
  all: destruct M as [Mn Mw Mc Mp Md Mj Mt Mg].
  all: step_inv Hs.
  all: repeat match goal with
       | H : clients _ !! ?c = Some ?pc |- _ =>
           lazymatch pc with
           | CIdle => fail
           | _ => assert_fails (constr_eq c c0);
                  destruct (decide (c = c0)) as [->|Hne];
                  [|by pose proof (Ho _ _ H Hne)]
           end
       end.
  all: try match goal with
       | H : clients _ !! _ = Some ?pc |- _ =>
           lazymatch eval cbn in (inserting pc) with
           | true => by pose proof (Oi _ H)
           end
       end.
  all: try match goal with
       | H : clients _ !! _ = Some ?pc |- _ =>
           lazymatch eval cbn in (destroying pc) with
           | true => pose proof (Ol _ H eq_refl ltac:(done)); congruence
           end
       end.
  all: use_monitor Mw Mc Mp Md Mj Mt Mg.
  all: try congruence.
  all: try (simplify_eq; simpl in *; rewrite Nat.eqb_refl in *; done).
  all: try match goal with
       | H : clients _ !! _ = Some (DCheck NULL _) |- _ => by pose proof (Oh _ _ H)
       end.
  - exact (Oj _ H _ (le_n _) H3).
  - apply lookup_ge_None in H3. apply Z.ltb_lt in H2. lia.
  - apply Of in H. by destruct (taskQueue (pool s)).
  - apply Og in H. congruence.
  - destruct t as [w|c].
    + destruct (LS _ H2) as (pc & Hpc & Hcr).
      pose proof (Mt _ _ H eq_refl _ _ Hpc) as ->. done.
    + by destruct (Ok _ c H eq_refl ltac:(first [exact H2|reflexivity])).
  - apply Og in H. congruence.
Qed.

Lemma orderly_step c0 d a s s' :
  quiet a → monitor s → closing c0 d s → orderly c0 s →
  step a s = Next s' → orderly c0 s'.
Proof.
  intros Ha M C [Oi Oh Ol Og Ok Oj Op Of] Hs.
  pose proof (cl_others c0 d s C) as Ho.
  destruct M as [Mn Mw Mc Mp Md Mj Mt Mg].
  destruct a as [c op|[w|c]|c|c w|w]; [done|..]; step_inv Hs.
  all: repeat match goal with
       | H : clients _ !! ?c = Some ?pc |- _ =>
           lazymatch pc with
           | CIdle => fail
           | _ => assert_fails (constr_eq c c0);
                  destruct (decide (c = c0)) as [->|Hne];
                  [|by pose proof (Ho _ _ H Hne)]
           end
       end.
  all: try match goal with
       | H : clients _ !! _ = Some ?pc |- _ =>
           lazymatch eval cbn in (inserting pc) with
           | true => by pose proof (Oi _ H)
           end
       end.
  all: split; simpl; unfold not; intros.
  all: try match goal with H : life _ = _ |- _ => rewrite H end.
  all: split_lookups.
  all: try done.
  all: try (by eauto).
  all: try match goal with
       | H : clients _ !! _ = Some ?pc |- _ ∧ _ =>
           destruct (Ok _ _ H eq_refl ltac:(first [eassumption|reflexivity])) as [? Hcr];
           simpl in Hcr; by subst
       end.
  all: use_monitor Mw Mc Mp Md Mj Mt Mg.
  all: try congruence.
  all: try match goal with
       | H0 : clients _ !! _ = Some (DJoin _), H2 : workers _ !! _ = Some WJoined |- False =>
           by (eapply (Oj _ H0); [|exact H2]; lia)
       | H0 : clients _ !! _ = Some _, H2 : workers _ !! _ = Some WJoined |- False =>
           by (eapply (Op _ H0 ltac:(first [eassumption|reflexivity])); exact H2)
       end.
  - lia.
  - by rewrite H4 in H2.
Qed.

Lemma run_defined (Q : action → Prop) (P : system → Prop) :
  (∀ a s, Q a → P s → step a s ≠ Undef) →
  (∀ a s s', Q a → P s → step a s = Next s' → P s') →
  ∀ sched s, Forall Q sched → P s → run sched s ≠ Undef.
Proof.
  intros Hdef Hstep sched.
  induction sched as [|a sched IH]; simpl; intros s HQ HP; [done|].
  apply Forall_cons in HQ as [Ha HQ].
  destruct (step a s) as [s1| |] eqn:Hs; [|done|].
  - apply IH; [done|]. by eapply Hstep.
  - by destruct (Hdef a s Ha HP).
Qed.

(** X15: an orderly shutdown performs no undefined operation.  When
    tpDestroy is called on a pool that is not shutting down, with no other
    call in flight and none made afterwards, no statement of any thread is
    undefined, however the threads are scheduled: the pool is not used
    after it is released, no thread is joined twice, the mutex is not
    destroyed while locked, and nothing is dequeued from an empty queue. *)
Theorem X15_orderly_shutdown_defined n e m s0 pre c0 d post s1 :
  initial n e m = Some s0 →
  run pre s0 = Next s1 →
  (∀ c pc, clients s1 !! c = Some pc → pc = CIdle) →
  isShuttingDown (pool s1) = false →
  Forall quiet post →
  run (Call c0 (Destroy POOL d) :: post) s1 ≠ Undef.
Proof.
  intros H0 Hpre Hidle Hsh Hq.
  destruct (sound_run _ _ _ _ _ _ H0 Hpre) as (M1 & L1 & SH1).
  pose proof (serving_run _ _ _ _ _ _ H0 Hpre) as Sv1.
  pose proof (lock_scope_run _ _ _ _ _ _ H0 Hpre) as LS1.
  simpl. unfold call_client.
  destruct (clients s1 !! c0) as [[]|] eqn:Hc; try done.
  set (sc := emit [EvCall c0 (Destroy POOL d)] (set_client c0 (DCheck POOL d) s1)).
  assert (step (Call c0 (Destroy POOL d)) s1 = Next sc) as Hcall.
  { simpl. unfold call_client. by rewrite Hc. }
  assert (life s1 = Live) as Hl.
  { destruct (life s1) eqn:E; [done|..];
      rewrite (sh_gone s1 SH1) in Hsh; congruence. }
  assert (∀ k, workers s1 !! k ≠ Some WJoined) as Hnj.
  { intros k Hk. destruct (Sv1 k _ Hk) as [_ Hs]. rewrite Hs in Hsh; done. }
  assert (orderly c0 sc) as O.
  { split; simpl; intros;
      repeat match goal with
      | H : <[_:=_]> _ !! _ = Some _ |- _ => erewrite lookup_set_same in H by done
      end; simplify_eq; try done. }
  apply (run_defined quiet
           (λ s, monitor s ∧ ledger s ∧ lock_scope s ∧ closing c0 d s ∧ orderly c0 s));
    [| |done|].
  - intros a s Ha (M & L & LS & C & Or). by eapply orderly_defined.
  - intros a s s' Ha (M & L & LS & C & Or) Hs.
    split; [by eapply monitor_step|]. split; [by eapply ledger_step|].
    split; [by eapply lock_scope_step|]. split; [by eapply closing_step|].
    by eapply orderly_step.
  - split; [by eapply monitor_step|]. split; [by eapply ledger_step|].
    split; [by eapply lock_scope_step|]. split; [by apply closing_call|done].
Qed.

Lemma X15_orderly_shutdown_defined_witness :
  ∃ s1 s2,
    run ready_to_dequeue (fresh_system 1 false 1) = Next s1 ∧
    run (Call 0 (Destroy POOL 1) :: drain_down) s1 = Next s2 ∧
    life s2 = Released ∧
    run (Call 0 (Destroy POOL 1) :: drain_down ++ [Step (Worker 0); Spurious 0]) s1
    ≠ Undef.
Proof.
  do 2 eexists.
  split; [vm_compute; reflexivity|].
  split; [vm_compute; reflexivity|].
  split; [reflexivity|].
  eapply (X15_orderly_shutdown_defined 1 env_ok 1 (fresh_system 1 false 1)
            ready_to_dequeue 0 1).
  - reflexivity.
  - vm_compute. reflexivity.
  - intros [|c] pc Hc; vm_compute in Hc; congruence.
  - reflexivity.
  - repeat constructor.
Defined.

(** ** Runs to completion *)

(** *** tpRoutine, statement by statement *)

Lemma step_WEnter s w pc :
  workers s !! w = Some pc → pc = WLock ∨ pc = WWoken →
  life s = Live → mutexEmptyQ (pool s) = None →
  step (Step (Worker w)) s =
  Next (set_worker w WGuard (set_owner (Some (Worker w)) s)).
Proof.
  intros H Hpc Hl Ho. simpl. unfold step_worker. rewrite H.
  destruct Hpc as [-> | ->]; by rewrite step_lock.
Qed.

Lemma step_WGuard_wait s w :
  workers s !! w = Some WGuard → life s = Live →
  mutexEmptyQ (pool s) = Some (Worker w) →
  taskQueue (pool s) = [] → isShuttingDown (pool s) = false →
  step (Step (Worker w)) s = Next (set_worker w WWait (set_owner None s)).
Proof.
  intros H Hl Ho Hq Hs. simpl. unfold step_worker.
  rewrite H, queue_live_live, Hq, Hs by done. simpl. by rewrite step_unlock.
Qed.

Lemma step_WGuard_go s w :
  workers s !! w = Some WGuard → life s = Live →
  wait_guard (osIsQueueEmpty (taskQueue (pool s))) (isShuttingDown (pool s)) = false →
  step (Step (Worker w)) s = Next (set_worker w WPolicy s).
Proof.
  intros H Hl Hg. simpl. unfold step_worker.
  by rewrite H, queue_live_live, Hg.
Qed.

Lemma step_WPolicy s w :
  workers s !! w = Some WPolicy → life s = Live →
  step (Step (Worker w)) s =
  Next (set_worker w
          (match shutdown_policy (isShuttingDown (pool s)) (shouldWaitForTasks (pool s))
                   (osIsQueueEmpty (taskQueue (pool s))) with
           | Terminate => WExit
           | TakeTask => WDequeue
           end) s).
Proof.
  intros H Hl. simpl. unfold step_worker. rewrite H, queue_live_live by done. simpl.
  by destruct (shutdown_policy _ _ _).
Qed.

Lemma step_WDequeue s w t q :
  workers s !! w = Some WDequeue → life s = Live → taskQueue (pool s) = t :: q →
  step (Step (Worker w)) s =
  Next (emit [EvDequeue (Worker w) t] (set_worker w (WUnlock t) (set_queue q s))).
Proof.
  intros H Hl Hq. simpl. unfold step_worker.
  by rewrite H, queue_live_live, Hq.
Qed.

Lemma step_WUnlock s w t :
  workers s !! w = Some (WUnlock t) → life s = Live →
  mutexEmptyQ (pool s) = Some (Worker w) →
  step (Step (Worker w)) s = Next (set_worker w (WCall t) (set_owner None s)).
Proof. intros H Hl Ho. simpl. unfold step_worker. by rewrite H, step_unlock. Qed.

Lemma step_WCall s w t nd :
  workers s !! w = Some (WCall t) → nodes s !! t = Some nd →
  step (Step (Worker w)) s =
  Next (emit [EvExec w t (computeFunc nd) (parameters nd)] (set_worker w (WFree t) s)).
Proof. intros H Hn. simpl. unfold step_worker. by rewrite H, Hn. Qed.

Lemma step_WFree s w t :
  workers s !! w = Some (WFree t) →
  step (Step (Worker w)) s = Next (emit [EvFree (Worker w) t] (set_worker w WLock s)).
Proof. intros H. simpl. unfold step_worker. by rewrite H. Qed.

Lemma step_WExit s w :
  workers s !! w = Some WExit → life s = Live →
  mutexEmptyQ (pool s) = Some (Worker w) →
  step (Step (Worker w)) s = Next (set_worker w WDone (set_owner None s)).
Proof. intros H Hl Ho. simpl. unfold step_worker. by rewrite H, step_unlock. Qed.

Ltac top_worker :=
  simpl; apply list_lookup_insert_eq; rewrite ?length_insert;
  eapply lookup_lt_Some; eassumption.

(** X16: submit, run, free.  On an idle pool (the queue empty, worker
    [w] blocked in pthread_cond_wait, the mutex free, the pool not
    shutting down) a call tpInsertTask(pool, f, p) followed by the
    statements of the woken worker runs f on p exactly once and frees the
    node; afterwards the queue is empty, the mutex free, and every thread
    is where it was. *)
Theorem X16_submit_run_free s c w f p :
  clients s !! c = Some CIdle →
  workers s !! w = Some WWait →
  life s = Live →
  isShuttingDown (pool s) = false →
  mutexEmptyQ (pool s) = None →
  taskQueue (pool s) = [] →
  ∃ s', run (submit_waking c f p (Some w) ++ serve w) s = Next s' ∧
        pool s' = pool s ∧ life s' = Live ∧
        workers s' = workers s ∧ clients s' = clients s ∧
        nodes s' = nodes s ++ [mk_task_node f p] ∧
        trace s' = trace s ++
          [EvCall c (Insert POOL (Some f) p); EvEnqueue c (length (nodes s));
           EvInsertRet c RetInserted; EvDequeue (Worker w) (length (nodes s));
           EvExec w (length (nodes s)) f p; EvFree (Worker w) (length (nodes s))].
Proof.
  intros Hc Hw Hl Hs Ho Hq. unfold submit_waking, serve. simpl app.
  erewrite run_step by (by apply step_call).
  erewrite run_step by (apply step_ICheck; [top_client|done|done]).
  erewrite run_step by (apply step_ICreate; top_client).
  erewrite run_step by (apply step_ILock; [top_client|done|done]).
  erewrite run_step by (apply step_IEnqueue; [top_client|done]).
  erewrite run_step by (apply (step_ISignal _ c (Some w)); [top_client|done|done]).
  erewrite run_step by (apply step_IUnlock; [top_client|done|done]).
  erewrite run_step
    by (eapply step_WEnter; [top_worker|by right|done|done]).
  erewrite run_step by (apply step_WGuard_go; [top_worker|done|]; simpl; by rewrite Hq).
  erewrite run_step by (apply step_WPolicy; [top_worker|done]).
  simpl shutdown_policy. rewrite Hs, Hq. simpl shutdown_policy.
  erewrite run_step by (eapply step_WDequeue; [top_worker|done|simpl; by rewrite Hq]).
  erewrite run_step by (apply step_WUnlock; [top_worker|done|done]).
  erewrite run_step
    by (eapply step_WCall; [top_worker|simpl; apply list_lookup_middle; done]).
  erewrite run_step by (apply step_WFree; top_worker).
  erewrite run_step by (eapply step_WEnter; [top_worker|by left|done|done]).
  erewrite run_step by (apply step_WGuard_wait; [top_worker|done..]).
  eexists. split; [done|]. simpl.
  rewrite !list_insert_insert_eq, (list_insert_id (clients s) c CIdle) by done.
  rewrite (list_insert_id (workers s) w WWait) by done.
  rewrite <- !app_assoc. simpl.
  destruct s as [[q sh dr n o] l ws cs ns tr]; simpl in *; subst. done.
Qed.

Lemma X16_submit_run_free_witness :
  ∃ s s', run [Step (Worker 0); Step (Worker 0); Step (Worker 0)]
            (fresh_system 1 false 1) = Next s ∧
          run (submit_waking 0 7 9 (Some 0) ++ serve 0) s = Next s' ∧
          pool s' = pool s ∧ workers s' = workers s ∧
          executed (trace s') = [0] ∧ freed (trace s') = [(Worker 0, 0)].
Proof.
  eexists. eexists. split; [vm_compute; reflexivity|].
  pose proof (X16_submit_run_free
    (mk_system (mk_pool [] false false 1 None) Live [WWait] [CIdle] [] [])
    0 0 7 9 eq_refl eq_refl eq_refl eq_refl eq_refl eq_refl)
    as (s' & Hrun & _).
  split; [vm_compute; reflexivity|]. repeat split; reflexivity.
Defined.

(** *** tpDestroy and tpFreeThreadPool, statement by statement *)

Lemma step_DCheck s c d :
  clients s !! c = Some (DCheck POOL d) → life s = Live →
  isShuttingDown (pool s) = false →
  step (Step (Client c)) s = Next (set_client c (DLock d) s).
Proof.
  intros H Hl Hs. simpl. unfold step_client. by rewrite H, released_live, Hs.
Qed.

Lemma step_DLock s c d :
  clients s !! c = Some (DLock d) → life s = Live → mutexEmptyQ (pool s) = None →
  step (Step (Client c)) s =
  Next (set_client c (DSetDrain d) (set_owner (Some (Client c)) s)).
Proof. intros H Hl Ho. simpl. unfold step_client. by rewrite H, step_lock. Qed.

Lemma step_DSetDrain s c d :
  clients s !! c = Some (DSetDrain d) → life s = Live →
  step (Step (Client c)) s =
  Next (emit [EvSetDrain c (drain_of d)]
          (set_client c DSetShut (set_drain (drain_of d) s))).
Proof. intros H Hl. simpl. unfold step_client. by rewrite H, released_live. Qed.

Lemma step_DSetShut s c :
  clients s !! c = Some DSetShut → life s = Live →
  step (Step (Client c)) s =
  Next (emit [EvSetShut c] (set_client c DBroadcast (set_shut true s))).
Proof. intros H Hl. simpl. unfold step_client. by rewrite H, released_live. Qed.

Lemma step_DBroadcast s c :
  clients s !! c = Some DBroadcast → life s = Live →
  step (Step (Client c)) s =
  Next (set_client c DUnlock (set_workers (wake <$> workers s) s)).
Proof. intros H Hl. simpl. unfold step_client. by rewrite H, released_live. Qed.

Lemma step_DUnlock s c :
  clients s !! c = Some DUnlock → life s = Live →
  mutexEmptyQ (pool s) = Some (Client c) →
  step (Step (Client c)) s = Next (set_client c (DJoin 0) (set_owner None s)).
Proof. intros H Hl Ho. simpl. unfold step_client. by rewrite H, step_unlock. Qed.

Lemma step_DJoin s c i :
  clients s !! c = Some (DJoin i) → life s = Live →
  (Z.of_nat i < numOfThreads (pool s))%Z → workers s !! i = Some WDone →
  step (Step (Client c)) s =
  Next (emit [EvJoin c i] (set_client c (DJoin (S i)) (set_worker i WJoined s))).
Proof.
  intros H Hl Hi Hw. simpl. unfold step_client.
  rewrite H, released_live by done.
  apply Z.ltb_lt in Hi. by rewrite Hi, Hw.
Qed.

Lemma step_DJoin_end s c i :
  clients s !! c = Some (DJoin i) → life s = Live →
  (numOfThreads (pool s) ≤ Z.of_nat i)%Z →
  step (Step (Client c)) s = Next (set_client c FCheck s).
Proof.
  intros H Hl Hi. simpl. unfold step_client.
  rewrite H, released_live by done.
  apply Z.ltb_ge in Hi. by rewrite Hi.
Qed.

Lemma step_FCheck s c :
  clients s !! c = Some FCheck → life s = Live →
  step (Step (Client c)) s =
  Next (set_client c (if osIsQueueEmpty (taskQueue (pool s)) then FQueue else FDequeue) s).
Proof.
  intros H Hl. simpl. unfold step_client. rewrite H, queue_live_live by done. simpl.
  by destruct (osIsQueueEmpty _).
Qed.

Lemma step_FDequeue s c t q :
  clients s !! c = Some FDequeue → life s = Live → taskQueue (pool s) = t :: q →
  step (Step (Client c)) s =
  Next (emit [EvDequeue (Client c) t; EvFree (Client c) t]
          (set_client c FCheck (set_queue q s))).
Proof.
  intros H Hl Hq. simpl. unfold step_client. by rewrite H, queue_live_live, Hq.
Qed.

Lemma step_FQueue s c :
  clients s !! c = Some FQueue → life s = Live →
  step (Step (Client c)) s = Next (set_client c FRelease (set_life QueueGone s)).
Proof. intros H Hl. simpl. unfold step_client. by rewrite H, queue_live_live. Qed.

Lemma step_FRelease s c :
  clients s !! c = Some FRelease → life s = QueueGone → mutexEmptyQ (pool s) = None →
  step (Step (Client c)) s = Next (ret_destroy c (set_life Released s)).
Proof. intros H Hl Ho. simpl. unfold step_client. by rewrite H, Hl, Ho. Qed.

Lemma mid_lookup {A} (a x : A) (i : nat) (l : list A) :
  (replicate i a ++ x :: l) !! i = Some x.
Proof. apply list_lookup_middle. by rewrite length_replicate. Qed.

Lemma mid_insert {A} (a x y : A) (i : nat) (l : list A) :
  <[i := y]> (replicate i a ++ x :: l) = replicate i a ++ y :: l.
Proof.
  rewrite insert_app_r_alt by (by rewrite length_replicate).
  by rewrite length_replicate, Nat.sub_diag.
Qed.

Lemma replicate_snoc {A} (a : A) (i : nat) (l : list A) :
  replicate i a ++ a :: l = replicate (S i) a ++ l.
Proof. induction i as [|i IH]; simpl; [done|]. by rewrite IH. Qed.

Ltac norm_state :=
  unfold ret_insert, ret_destroy, set_worker, set_owner, set_client, set_workers,
    set_queue, set_shut, set_drain, set_life, alloc_node, emit;
  cbn [pool life workers clients nodes trace taskQueue isShuttingDown
       shouldWaitForTasks numOfThreads mutexEmptyQ];
  rewrite ?list_insert_insert_eq.

Lemma retire_one s c b i j tr pc :
  clients s !! c = Some pc →
  numOfThreads (pool s) = Z.of_nat (i + S j) →
  run (retire c i) (retiring s c b i (S j) tr) =
  Next (retiring s c b (S i) j (tr ++ [EvJoin c i])).
Proof.
  intros Hc Hn. unfold retire, retiring. simpl replicate.
  erewrite run_step by (eapply step_WEnter; [apply mid_lookup|by right|done|done]).
  norm_state. rewrite mid_insert.
  erewrite run_step by (apply step_WGuard_go; [apply mid_lookup|done|done]).
  norm_state. rewrite mid_insert.
  erewrite run_step by (apply step_WPolicy; [apply mid_lookup|done]).
  norm_state. rewrite mid_insert. cbn [osIsQueueEmpty].
  assert (shutdown_policy true b true = Terminate) as -> by (by destruct b).
  erewrite run_step by (apply step_WExit; [apply mid_lookup|done|done]).
  norm_state. rewrite mid_insert.
  erewrite run_step
    by (apply step_DJoin; [top_client|done|simpl; lia|apply mid_lookup]).
  norm_state. rewrite mid_insert, (replicate_snoc WJoined i). done.
Qed.

Lemma retire_run s c b j : ∀ i tr pc,
  clients s !! c = Some pc →
  numOfThreads (pool s) = Z.of_nat (i + j) →
  run (retire_from c i j) (retiring s c b i j tr) =
  Next (retiring s c b (i + j) 0 (tr ++ (EvJoin c <$> seq i j))).
Proof.
  induction j as [|j IH]; intros i tr pc Hc Hn.
  - cbn [retire_from run seq fmap list_fmap]. by rewrite Nat.add_0_r, app_nil_r.
  - change (retire_from c i (S j)) with (retire c i ++ retire_from c (S i) j).
    rewrite run_app. erewrite retire_one; [|exact Hc|exact Hn].
    erewrite (IH (S i)); [|exact Hc|rewrite Hn; f_equal; lia].
    replace (S i + j) with (i + S j) by lia.
    cbn [seq fmap list_fmap]. by rewrite <- app_assoc.
Qed.

(** X17: tpDestroy completes on an idle pool.  When every worker is
    blocked in pthread_cond_wait and the queue is empty, there is a
    schedule under which tpDestroy returns: the broadcast wakes every
    worker, each finds isShuttingDown set and exits, the join loop joins
    them in index order, and tpFreeThreadPool releases the pool.  The log
    gains the call, the two writes of the flags, one join for each
    worker, and the return. *)
Theorem X17_destroy_idle_pool_completes s c d k :
  clients s !! c = Some CIdle →
  life s = Live →
  isShuttingDown (pool s) = false →
  mutexEmptyQ (pool s) = None →
  taskQueue (pool s) = [] →
  workers s = replicate k WWait →
  numOfThreads (pool s) = Z.of_nat k →
  ∃ s', run (destroy_idle c d k) s = Next s' ∧
        life s' = Released ∧
        workers s' = replicate k WJoined ∧
        clients s' = clients s ∧
        isShuttingDown (pool s') = true ∧
        shouldWaitForTasks (pool s') = drain_of d ∧
        nodes s' = nodes s ∧
        trace s' = trace s ++
          [EvCall c (Destroy POOL d); EvSetDrain c (drain_of d); EvSetShut c] ++
          (EvJoin c <$> seq 0 k) ++ [EvDestroyRet c].
Proof.
  intros Hc Hl Hs Ho Hq Hw Hn. unfold destroy_idle.
  cbn [replicate app].
  erewrite run_step by (by apply step_call).
  norm_state. cbn [entry_of].
  erewrite run_step by (apply step_DCheck; [top_client|done|done]).
  norm_state.
  erewrite run_step by (apply step_DLock; [top_client|done|done]).
  norm_state.
  erewrite run_step by (apply step_DSetDrain; [top_client|done]).
  norm_state.
  erewrite run_step by (apply step_DSetShut; [top_client|done]).
  norm_state.
  erewrite run_step by (apply step_DBroadcast; [top_client|done]).
  norm_state.
  erewrite run_step by (apply step_DUnlock; [top_client|done|done]).
  norm_state. rewrite Hq, Hl, Hw, fmap_replicate. cbn [wake].
  rewrite <- !app_assoc. cbn [app].
  pose proof (retire_run s c (drain_of d) k 0
                (trace s ++ [EvCall c (Destroy POOL d); EvSetDrain c (drain_of d);
                             EvSetShut c]) CIdle Hc Hn) as Hr.
  unfold retiring in Hr. cbn [replicate app Nat.add] in Hr.
  rewrite app_nil_r in Hr.
  rewrite run_app, Hr.
  erewrite run_step by (eapply step_DJoin_end; [top_client|done|simpl; lia]).
  norm_state.
  erewrite run_step by (apply step_FCheck; [top_client|done]).
  norm_state. cbn [osIsQueueEmpty].
  erewrite run_step by (apply step_FQueue; [top_client|done]).
  norm_state.
  erewrite run_step by (apply step_FRelease; [top_client|done|done]).
  norm_state.
  eexists. split; [reflexivity|]. cbn [pool life workers clients nodes trace
    isShuttingDown shouldWaitForTasks].
  rewrite (list_insert_id (clients s) c CIdle) by done.
  rewrite <- !app_assoc. done.
Qed.

Lemma X17_destroy_idle_pool_completes_witness :
  ∃ s s', run [Step (Worker 0); Step (Worker 0); Step (Worker 0);
               Step (Worker 1); Step (Worker 1); Step (Worker 1)]
            (fresh_system 2 false 1) = Next s ∧
          run (destroy_idle 0 0 2) s = Next s' ∧
          life s' = Released ∧ workers s' = [WJoined; WJoined].
Proof.
  eexists. eexists. split; [vm_compute; reflexivity|].
  pose proof (X17_destroy_idle_pool_completes
    (mk_system (mk_pool [] false false 2 None) Live [WWait; WWait] [CIdle] [] [])
    0 0 2 eq_refl eq_refl eq_refl eq_refl eq_refl eq_refl eq_refl)
    as (s' & Hrun & _).
  split; [vm_compute; reflexivity|]. split; reflexivity.
Defined.

(** ** The uninitialised flag, the join loop, the wake-ups *)

Lemma step_set_drain b a s :
  isShuttingDown (pool s) = false →
  (∀ c, clients s !! c ≠ Some DSetShut) →
  (∃ s1, step a s = Next s1 ∧ step a (set_drain b s) = Next s1) ∨
  (step a (set_drain b s) = map_outcome (set_drain b) (step a s) ∧
   ∀ s1, step a s = Next s1 →
         isShuttingDown (pool s1) = false ∧ ∀ c, clients s1 !! c ≠ Some DSetShut).
Proof.
  intros Hs Hn.
  destruct a as [c op|[w|c]|c|c w|w]; simpl;
    unfold call_client, step_worker, step_client, fail_client, signal_client,
      spurious, lock, unlock, owned_by, released, queue_live; simpl;
    rewrite ?Hs; simpl.
  all: repeat case_match; simplify_eq; simpl.
  all: try (by destruct (Hn _ ltac:(eassumption))).
  all: try (right; split; [reflexivity|]; by intros s1 [=]).
  all: try (left; eexists; split; reflexivity).
  all: right; split; [reflexivity|]; intros s1 [= <-]; simpl; split; [done|].
  all: intros c' Hc'; split_lookups; try done; try (by eapply Hn).
  by destruct op.
Qed.

Lemma same_outcome_run sched : ∀ s s',
  same_but_drain s s' → same_outcome (run sched s) (run sched s').
Proof.
  induction sched as [|a sched IH]; intros s s' H; simpl; [done|].
  destruct H as [->|(b & -> & Hs & Hn)].
  - destruct (step a s); simpl; [|done..]. apply IH. by left.
  - destruct (step_set_drain b a s Hs Hn) as [(s1 & H1 & H2)|[H1 H2]].
    + rewrite H1, H2. apply IH. by left.
    + rewrite H1. destruct (step a s) as [s1| |]; simpl; [|done..].
      apply IH. right. exists b. destruct (H2 s1 eq_refl). done.
Qed.

(** X18: the field tpCreate leaves uninitialised is never read before it
    is written.  tpCreate does not set shouldWaitForTasks; whatever value
    the field holds, every schedule has the same outcome, with the same
    threads, queue, log and isShuttingDown: the two machines differ at most
    in that field, and only as long as the pool is not shutting down, when
    line 41 and line 48 do not read it. *)
Theorem X18_uninitialised_flag_unread n e e' m s0 s0' sched :
  initial n e m = Some s0 →
  initial n e' m = Some s0' →
  match run sched s0, run sched s0' with
  | Next s, Next s' =>
      s' = s ∨
      (isShuttingDown (pool s) = false ∧
       s' = set_drain (shouldWaitForTasks (pool s')) s)
  | Stuck, Stuck => True
  | Undef, Undef => True
  | _, _ => False
  end.
Proof.
  intros H0 H0'. apply initial_fresh in H0 as ->. apply initial_fresh in H0' as ->.
  assert (same_but_drain (fresh_system n (junk e) m) (fresh_system n (junk e') m)) as R.
  { right. exists (junk e'). split; [done|]. split; [done|].
    intros c Hc. simpl in Hc. by apply lookup_replicate in Hc as [? _]. }
  pose proof (same_outcome_run sched _ _ R) as H.
  unfold same_outcome in H.
  destruct (run sched (fresh_system n (junk e) m)) as [s| |],
           (run sched (fresh_system n (junk e') m)) as [s'| |]; try done.
  destruct H as [->|(b & -> & Hs & _)]; [by left|right; by split].
Qed.

Lemma X18_uninitialised_flag_unread_witness :
  match run shut_idle (fresh_system 1 false 1), run shut_idle (fresh_system 1 true 1) with
  | Next s, Next s' =>
      s' = s ∨
      (isShuttingDown (pool s) = false ∧
       s' = set_drain (shouldWaitForTasks (pool s')) s)
  | Stuck, Stuck => True
  | Undef, Undef => True
  | _, _ => False
  end.
Proof.
  exact (X18_uninitialised_flag_unread 1 env_ok env_junk 1 _ _ shut_idle eq_refl eq_refl).
Defined.

Lemma joins_app tr1 tr2 : joins (tr1 ++ tr2) = joins tr1 ++ joins tr2.
Proof. apply omap_app. Qed.

Ltac join_fin Hw :=
  repeat match goal with
  | H : workers _ !! _ = Some _ |- _ => apply Hw in H
  end;
  intuition (try congruence; try lia; try discriminate).

Lemma join_loop_step c0 a s s' j :
  sole_destroyer c0 a → destroyed_once c0 s → shut_held s →
  join_loop c0 j s → step a s = Next s' → ∃ j', join_loop c0 j' s'.
Proof.
  intros Ha [Do Db _] [Sa _] [Hj Hw Hi Hb Hu] Hs.
  destruct a as [c op|[w|c]|c|c w|w]; step_inv Hs.
  all: try match goal with op : api_call |- _ => destruct op end.
  all: simpl in Ha; subst.
  all: repeat match goal with
       | H : clients _ !! _ = Some ?pc |- _ =>
           lazymatch eval cbn in (destroying pc) with
           | true => pose_new (Do _ _ H eq_refl)
           end
       end; subst.
  all: repeat match goal with
       | H : clients _ !! _ = Some ?pc |- _ =>
           lazymatch eval cbn in (pre_write pc) with
           | true => pose_new (Db _ H eq_refl)
           end
       | H : clients _ !! _ = Some ?pc |- _ =>
           lazymatch eval cbn in (after_shut pc) with
           | true => pose_new (Sa _ _ H eq_refl)
           end
       | H : clients _ !! _ = Some ?pc |- _ =>
           lazymatch eval cbn in (before_loop pc) with
           | true => pose_new (Hb _ H eq_refl)
           end
       | H : clients _ !! _ = Some (DJoin _) |- _ => pose_new (Hi _ H)
       end; destruct_and?; subst.
  all: try solve [exists j; split; simpl; intros; rewrite ?joins_app; simpl;
                  rewrite ?app_nil_r; split_lookups; simpl in *; simplify_eq;
                  try done; try (by eauto); join_fin Hw].
  all: try solve [exists 0; split; simpl; intros; rewrite ?joins_app; simpl;
                  rewrite ?app_nil_r; split_lookups; simpl in *; simplify_eq;
                  try done; try (by eauto); join_fin Hw].
  all: exists (S j); split; simpl; intros.
  all: rewrite ?seq_S, ?joins_app, ?Hj; simpl; try done.
  all: split_lookups; simpl in *; simplify_eq; try done.
  all: try lia.
  all: try congruence.
  all: join_fin Hw.
  all: try (change (0 :: seq 1 j) with (seq 0 (S j)); by rewrite seq_S).
  all: match goal with H : _ < _ → ?pc = WJoined |- ?pc = WJoined => apply H; lia end.
Qed.

Lemma join_loop_fresh c0 n j m : join_loop c0 0 (fresh_system n j m).
Proof.
  split; simpl; try done.
  - intros k pc [-> _]%lookup_replicate. split; [done|lia].
  - intros i [? _]%lookup_replicate. done.
Qed.

(** X19: with one thread calling tpDestroy, the workers are joined in
    index order and none is joined twice.  In every state a run reaches,
    the joins in the log are those of workers 0, 1, ..., j-1 in that
    order, for some j, the joined workers are exactly those, and a client
    at line 166 is at index j of the loop: while the index is below
    numOfThreads, the thread that line 168 is about to join exists and
    has not been joined. *)
Theorem X19_joined_in_order n e m s0 c0 sched s :
  initial n e m = Some s0 →
  Forall (sole_destroyer c0) sched →
  run sched s0 = Next s →
  ∃ j, joins (trace s) = seq 0 j ∧
       (∀ k pc, workers s !! k = Some pc → (pc = WJoined ↔ k < j)) ∧
       ∀ c i, clients s !! c = Some (DJoin i) →
         c = c0 ∧ i = j ∧
         ((Z.of_nat i < numOfThreads (pool s))%Z →
          ∃ pc, workers s !! i = Some pc ∧ pc ≠ WJoined).
Proof.
  intros H0 Hsole Hrun.
  pose proof (monitor_run _ _ _ _ _ _ H0 Hrun) as M.
  apply initial_fresh in H0 as ->.
  assert (destroyed_once c0 s ∧ shut_held s ∧ ∃ j, join_loop c0 j s)
    as (D & _ & j & [Hj Hw Hi _ _]).
  { eapply (run_preserves_sched (sole_destroyer c0)
              (λ s, destroyed_once c0 s ∧ shut_held s ∧ ∃ j, join_loop c0 j s));
      [|exact Hsole| |exact Hrun].
    - intros a s1 s2 Ha (D1 & S1 & j1 & J1) Hs.
      split; [by eapply destroyed_once_step|].
      split; [by eapply shut_held_step|by eapply join_loop_step].
    - split; [apply destroyed_once_fresh|].
      split; [apply shut_held_fresh|]. exists 0. apply join_loop_fresh. }
  exists j. split; [done|]. split; [done|].
  intros c i Hc.
  assert (c = c0) as -> by (by eapply (do_others c0 s D)).
  assert (i = j) as -> by auto.
  split; [done|]. split; [done|]. intros Hlt.
  destruct (workers s !! j) as [pc|] eqn:Hk.
  - exists pc. split; [done|]. intros ->.
    pose proof (proj1 (Hw _ _ Hk) eq_refl). lia.
  - apply lookup_ge_None in Hk. rewrite (mon_threads s M) in Hk. lia.
Qed.

Lemma X19_joined_in_order_witness :
  ∃ s, run (shut_idle ++ [Step (Worker 0)]) (fresh_system 1 false 1) = Next s ∧
       clients s = [DJoin 0] ∧ workers s = [WDone] ∧
       ∃ j, joins (trace s) = seq 0 j ∧
            (∀ k pc, workers s !! k = Some pc → (pc = WJoined ↔ k < j)) ∧
            ∀ c i, clients s !! c = Some (DJoin i) →
              c = 0 ∧ i = j ∧
              ((Z.of_nat i < numOfThreads (pool s))%Z →
               ∃ pc, workers s !! i = Some pc ∧ pc ≠ WJoined).
Proof.
  eexists. split; [vm_compute; reflexivity|].
  split; [reflexivity|]. split; [reflexivity|].
  apply (X19_joined_in_order 1 env_ok 1 (fresh_system 1 false 1) 0
           (shut_idle ++ [Step (Worker 0)])).
  - reflexivity.
  - vm_compute. repeat constructor.
  - vm_compute. reflexivity.
Defined.

Lemma some_awake_set ws w pc pc0 :
  ws !! w = Some pc0 → awake pc = true → some_awake (<[w := pc]> ws).
Proof.
  intros Hw Hpc. exists w, pc. split; [|done]. by eapply lookup_set_same.
Qed.

Lemma some_awake_keep ws w pc pc0 :
  ws !! w = Some pc0 → awake pc0 = false → some_awake ws → some_awake (<[w := pc]> ws).
Proof.
  intros Hw Hpc (w1 & pc1 & H1 & Ha).
  exists w1, pc1. split; [|done].
  apply lookup_set_keep; [done|]. intros ->. congruence.
Qed.

Lemma some_awake_wake ws : 0 < length ws → some_awake (wake <$> ws).
Proof.
  intros Hp. destruct (lookup_lt_is_Some_2 ws 0 Hp) as [pc Hpc].
  exists 0, (wake pc). split; [by rewrite list_lookup_fmap, Hpc|by destruct pc].
Qed.

Lemma none_waiting ws : 0 < length ws → existsb is_waiting ws = false → some_awake ws.
Proof.
  intros Hp Hw. destruct (lookup_lt_is_Some_2 ws 0 Hp) as [pc Hpc].
  exists 0, pc. split; [done|].
  destruct ws as [|pc' ws]; simpl in *; simplify_eq.
  apply orb_false_elim in Hw as [Hw _]. by destruct pc.
Qed.

Lemma attentive_step a s s' :
  monitor s → shut_held s → attentive s → step a s = Next s' → attentive s'.
Proof.
  intros M [Sa _] [Ap Aq Au] Hs.
  destruct M as [Mn Mw Mc Mp Md Mj Mt Mg].
  destruct a as [c op|[w|c]|c|c w|w]; step_inv Hs.
  all: split; simpl; intros.
  all: rewrite ?length_insert, ?length_fmap; try done.
  all: split_lookups.
  all: try (by eauto).
  all: try (by apply some_awake_wake).
  all: try (left; by apply some_awake_wake).
  all: try (left; by eapply some_awake_set).
  all: try (by eapply some_awake_set).
  all: try (by destruct op).
  all: try (by destruct (taskQueue (pool s))).
  all: try (use_monitor Mw Mc Mp Md Mj Mt Mg; congruence).
  all: try (by apply none_waiting).
  all: try (left; by eauto).
  all: match goal with
       | H : clients _ !! _ = Some _, H0 : isShuttingDown _ = false |- _ =>
           rewrite (Sa _ _ H eq_refl) in H0; done
       end.
Qed.

Lemma attentive_fresh n j m : (0 < n)%Z → attentive (fresh_system n j m).
Proof.
  intros Hn. split; simpl.
  - rewrite length_replicate. lia.
  - done.
  - intros c [? _]%lookup_replicate. done.
Qed.

(** X20: no wake-up is lost.  On a pool with at least one thread, in every
    state a run reaches in which the pool is not shutting down, the queue
    holds a node and no client holds the mutex, some worker is neither
    blocked in pthread_cond_wait nor past its loop: it will test the queue
    at line 29 before it waits. *)
Theorem X20_no_lost_wakeup n e m s0 sched s :
  (0 < n)%Z →
  initial n e m = Some s0 →
  run sched s0 = Next s →
  isShuttingDown (pool s) = false →
  taskQueue (pool s) ≠ [] →
  (∀ c, mutexEmptyQ (pool s) ≠ Some (Client c)) →
  ∃ w pc, workers s !! w = Some pc ∧ pc ≠ WWait ∧ w_exiting pc = false.
Proof.
  intros Hn H0 Hrun Hs Hq Ho.
  pose proof (serving_run _ _ _ _ _ _ H0 Hrun) as Sv.
  apply initial_fresh in H0 as ->.
  assert (monitor s ∧ shut_held s ∧ attentive s) as (_ & _ & A).
  { revert Hrun. apply (run_preserves (λ s, monitor s ∧ shut_held s ∧ attentive s)).
    - intros a s1 s2 (M1 & S1 & A1) Hst.
      split; [by eapply monitor_step|]. split; [by eapply shut_held_step|].
      by eapply attentive_step.
    - split; [apply monitor_fresh|]. split; [apply shut_held_fresh|].
      by apply attentive_fresh. }
  destruct (at_queue s A Hs Hq) as [(w & pc & Hw & Ha)|[c Hc]]; [|by destruct (Ho c)].
  exists w, pc. split; [done|]. split; [by intros ->|].
  destruct (w_exiting pc) eqn:Hx; [|done].
  destruct (Sv w pc Hw) as [_ Hsh]. rewrite Hsh in Hs; done.
Qed.

Lemma X20_no_lost_wakeup_witness :
  ∃ s, run one_woken (fresh_system 1 false 1) = Next s ∧
       taskQueue (pool s) = [0] ∧
       ∃ w pc, workers s !! w = Some pc ∧ pc ≠ WWait ∧ w_exiting pc = false.
Proof.
  eexists. split; [vm_compute; reflexivity|]. split; [reflexivity|].
  eapply (X20_no_lost_wakeup 1 env_ok 1 (fresh_system 1 false 1) one_woken).
  - lia.
  - reflexivity.
  - vm_compute. reflexivity.
  - reflexivity.
  - simpl. discriminate.
  - intros c. simpl. discriminate.
Defined.

(** ** Running tasks at teardown, and a node that is lost *)

(** X21: tpFreeThreadPool starts after the running tasks have ended.  In
    every state a run reaches in which a client is in tpFreeThreadPool, or
    the queue or the pool has been released, every node a worker has
    dequeued has been run and freed by that worker. *)
Theorem X21_teardown_after_running_tasks n e m s0 sched s w t :
  initial n e m = Some s0 →
  run sched s0 = Next s →
  (life s ≠ Live ∨ ∃ c pc, clients s !! c = Some pc ∧ c_teardown pc = true) →
  (Worker w, t) ∈ dequeued (trace s) →
  t ∈ executed (trace s) ∧ (Worker w, t) ∈ freed (trace s).
Proof.
  intros H0 Hrun Hs Hd.
  destruct (sound_run _ _ _ _ _ _ H0 Hrun) as (M & L & _).
  destruct (led_worker s L w t Hd) as [(pc & Hw & Hh)|?]; [|done].
  assert (pc = WJoined) as ->; [|done].
  destruct Hs as [Hl|(c & pc' & Hc & Ht)].
  - by apply (mon_gone s M Hl w).
  - by apply (mon_teardown s M c pc' Hc Ht w).
Qed.

Lemma X21_teardown_after_running_tasks_witness :
  ∃ s, run served_then_destroyed (fresh_system 1 false 1) = Next s ∧
       life s = Released ∧
       dequeued (trace s) = [(Worker 0, 0)] ∧
       0 ∈ executed (trace s) ∧ (Worker 0, 0) ∈ freed (trace s).
Proof.
  eexists. split; [vm_compute; reflexivity|]. split; [reflexivity|].
  split; [reflexivity|].
  eapply (X21_teardown_after_running_tasks 1 env_ok 1 (fresh_system 1 false 1)
            served_then_destroyed _ 0 0).
  - reflexivity.
  - vm_compute. reflexivity.
  - left. simpl. discriminate.
  - simpl. repeat constructor.
Defined.

Lemma lost_step t a s s' : lost t s → step a s = Next s' → lost t s'.
Proof.
  intros (Hlt & He & Hp) Hs.
  destruct a as [c op|[w|c]|c|c w|w]; step_inv Hs.
  all: try match goal with op : api_call |- _ => destruct op end.
  all: split; [simpl; rewrite ?length_app; simpl; lia|].
  all: split; [simpl; rewrite ?enqueued_app; simpl; rewrite ?app_nil_r|].
  all: try done.
  all: try (intros c' pc' Hc'; simpl in Hc'; split_lookups; simpl;
            try done; try (by eapply Hp); try (intros [= ->]; lia)).
  all: try match goal with
       | H : clients _ !! _ = Some ?pc |- _ =>
           lazymatch eval cbn in (pending_of pc) with
           | Some _ => pose proof (Hp _ _ H)
           end
       end.
  all: simpl in *.
  all: try (rewrite elem_of_snoc; intros [?| ->]; done).
  all: try congruence.
  intros [= E]. lia.
Qed.

(** X22: the return of line 205 leaks the task node.  When
    pthread_mutex_lock reports an error, tpInsertTask returns the failure
    code without freeing the node tnCreate allocated: the node stays
    allocated and, whatever is scheduled afterwards, is never enqueued and
    never freed. *)
Theorem X22_lock_error_leaks_node n e m s0 pre s c t s1 post s2 :
  initial n e m = Some s0 →
  run pre s0 = Next s →
  clients s !! c = Some (ILock t) →
  step (Fail c) s = Next s1 →
  run post s1 = Next s2 →
  last (trace s1) = Some (EvInsertRet c RetLockErr) ∧
  ret_value RetLockErr = TASK_INSERT_FAILURE ∧
  t < length (nodes s2) ∧
  (t ∉ enqueued (trace s2)) ∧
  (∀ who, (who, t) ∉ freed (trace s2)).
Proof.
  intros H0 Hpre Hc Hf Hpost.
  destruct (sound_run _ _ _ _ _ _ H0 Hpre) as (M & L & SH).
  assert (monitor s1 ∧ ledger s1 ∧ shut_held s1) as S1.
  { split; [by eapply monitor_step|]. split; [by eapply ledger_step|].
    by eapply shut_held_step. }
  destruct (sound_more _ _ _ S1 Hpost) as (_ & L2 & _).
  unfold step, fail_client in Hf. rewrite Hc in Hf.
  destruct (released s) eqn:Hr; [done|]. simplify_eq.
  split; [simpl; by rewrite last_snoc|]. split; [done|].
  destruct (led_pending s L c _ t Hc eq_refl) as [Hlt He].
  assert (lost t (ret_insert c RetLockErr s)) as Hl.
  { split; [done|]. split; simpl.
    - by rewrite enqueued_app, app_nil_r.
    - intros c' pc Hc' Hpc. apply lookup_set in Hc' as [[-> ->]|[Hne Hc']]; [done|].
      by pose proof (led_pending_one s L c c' _ pc t Hc Hc' eq_refl Hpc). }
  assert (lost t s2) as (Hlt2 & He2 & _).
  { revert Hpost. apply run_preserves; [|done]. intros. by eapply lost_step. }
  split; [done|]. split; [done|].
  intros who Hfr. apply (led_freed s2 L2) in Hfr. apply elem_of_snd in Hfr.
  apply He2. rewrite (led_fifo s2 L2). apply elem_of_app. by left.
Qed.

Lemma X22_lock_error_leaks_node_witness :
  ∃ s s1 s2, run at_lock (fresh_system 1 false 1) = Next s ∧
             step (Fail 0) s = Next s1 ∧
             run (submit 0 7 9) s1 = Next s2 ∧
             nodes s2 = [mk_task_node 7 9; mk_task_node 7 9] ∧
             enqueued (trace s2) = [1] ∧
             (0 ∉ enqueued (trace s2)) ∧
             (∀ who, (who, 0) ∉ freed (trace s2)).
Proof.
  eexists. eexists. eexists.
  split; [vm_compute; reflexivity|]. split; [vm_compute; reflexivity|].
  split; [vm_compute; reflexivity|]. split; [reflexivity|]. split; [reflexivity|].
  pose proof (X22_lock_error_leaks_node 1 env_ok 1 (fresh_system 1 false 1) at_lock
                _ 0 0 _ (submit 0 7 9) _ eq_refl ltac:(vm_compute; reflexivity) eq_refl
                ltac:(vm_compute; reflexivity) ltac:(vm_compute; reflexivity))
    as (_ & _ & _ & He & Hf).
  split; [exact He|exact Hf].
Defined.

